(** * UniLiveHub/www: referral attribution, event pipeline and milestones

  A shallow embedding of the client-side attribution and telemetry
  scripts:

  - the referral tracker (the script that follows the shell part of
    [user/capture-promo-images.sh]): [Referral];
  - the universal analytics tracker and its configuration
    ([alex/analytics-tracker.js]): [Tracker];
  - the webhook and milestone script ([unnamed/part_000]): [Webhooks].

  JavaScript strings are modelled by [string] (byte strings); [null]
  and [undefined] by [None].  A JavaScript object used as a dictionary
  is a [gmap] keyed by strings.  Numbers that the code only compares
  and decrements are integers ([Z]). *)

From Stdlib Require Import ZArith String Ascii List Bool Lia.
From stdpp Require Import base option list gmap strings pretty.

Import ListNotations.
Local Open Scope string_scope.

(* ===================================================================== *)
(** ** JavaScript primitives used by the scripts                          *)
(* ===================================================================== *)

Module Js.

(** Truthiness of a string: every string but the empty one. *)
Definition truthy (s : string) : bool :=
  match s with
  | EmptyString => false
  | String _ _ => true
  end.

(** Truthiness of a value that is a string, [null] or [undefined]. *)
Definition truthyO (v : option string) : bool :=
  match v with
  | Some s => truthy s
  | None => false
  end.

(** [a || b] on such values. *)
Definition or (a b : option string) : option string :=
  if truthyO a then a else b.

(** String conversion as done by a template literal or by
    [URLSearchParams.set]: [null] becomes the text [null]. *)
Definition toStr (v : option string) : string :=
  match v with
  | Some s => s
  | None => "null"
  end.

Definition inRange (lo hi : nat) (c : ascii) : bool :=
  let n := nat_of_ascii c in (lo <=? n)%nat && (n <=? hi)%nat.

Definition isUpper (c : ascii) : bool := inRange 65 90 c.
Definition isLower (c : ascii) : bool := inRange 97 122 c.
Definition isDigit (c : ascii) : bool := inRange 48 57 c.

(** The character class [[a-zA-Z0-9]]. *)
Definition isAlnum (c : ascii) : bool := isLower c || isUpper c || isDigit c.

(** The character class [[a-zA-Z0-9_]]. *)
Definition isWord (c : ascii) : bool := isAlnum c || Ascii.eqb c "_"%char.

(** [String.prototype.toLowerCase]: the ASCII capitals are lower-cased
    and every other byte is kept; this is the function on ASCII text
    (see [isAscii]).  (No parameter name the scripts look up contains a
    letter that a non-ASCII character lower-cases to.) *)
Definition lowerChar (c : ascii) : ascii :=
  if isUpper c then ascii_of_nat (nat_of_ascii c + 32) else c.

Fixpoint toLowerCase (s : string) : string :=
  match s with
  | EmptyString => EmptyString
  | String c r => String (lowerChar c) (toLowerCase r)
  end.

Fixpoint allChars (p : ascii -> bool) (s : string) : bool :=
  match s with
  | EmptyString => true
  | String c r => p c && allChars p r
  end.

(** A text of ASCII characters only. *)
Definition isAscii (s : string) : bool :=
  allChars (fun c => (nat_of_ascii c <? 128)%nat) s.

(** [/^[class]{lo,hi}$/.test(s)]: the whole string, no [m] flag. *)
Definition matchClass (p : ascii -> bool) (lo hi : nat) (s : string) : bool :=
  allChars p s && (lo <=? String.length s)%nat && (String.length s <=? hi)%nat.

(** [hay.includes(needle)]. *)
Fixpoint includes (hay needle : string) : bool :=
  String.prefix needle hay ||
  match hay with
  | EmptyString => false
  | String _ r => includes r needle
  end.

(** [s.split(sep)] for a one-character separator. *)
Fixpoint split (sep : ascii) (s : string) : list string :=
  match s with
  | EmptyString => [EmptyString]
  | String c r =>
      if Ascii.eqb c sep then EmptyString :: split sep r
      else match split sep r with
           | h :: t => String c h :: t
           | [] => [String c EmptyString]
           end
  end.

(** [object[key] = value] on a plain object, the dictionary being its
    own properties: the key [__proto__] names the accessor inherited
    from [Object.prototype], and assigning to it creates no property. *)
Definition setProperty {V : Type} (key : string) (value : V)
    (object : gmap string V) : gmap string V :=
  if String.eqb key "__proto__" then object else <[key := value]> object.

(** The names a plain object inherits from [Object.prototype]. *)
Definition objectPrototypeNames : list string :=
  ["constructor"; "hasOwnProperty"; "isPrototypeOf"; "propertyIsEnumerable";
   "toLocaleString"; "toString"; "valueOf"; "__proto__";
   "__defineGetter__"; "__defineSetter__"; "__lookupGetter__"; "__lookupSetter__"].

Definition inherited (key : string) : bool :=
  existsb (String.eqb key) objectPrototypeNames.

(** A JSON value as the scripts store them: [null], a string, or an
    object whose properties are strings and nulls. *)
Inductive JsonValue :=
| JNull
| JString (s : string)
| JObject (properties : list (string * option string)).

Definition jsonOf (v : option string) : JsonValue :=
  match v with
  | Some s => JString s
  | None => JNull
  end.

Definition truthyJ (v : JsonValue) : bool :=
  match v with
  | JNull => false
  | JString s => truthy s
  | JObject _ => true
  end.

(** The UTF-16 code units of a text given by its bytes, each byte one
    unit (ASCII and Latin-1 text). *)
Definition codeUnits (s : string) : list N :=
  map N_of_ascii (list_ascii_of_string s).

End Js.

(* ===================================================================== *)
(** ** The referral tracker                                               *)
(* ===================================================================== *)

Module Referral.

(** *** Configuration: [REFERRAL_CONFIG] *)

Definition storageKey := "unilive_referral".
Definition cookieName := "unilive_ref".
Definition cookieDays : Z := 30.
Definition defaultReferrer := "alex".
Definition defaultCode := "zyDK65".
Definition validParams : list string :=
  ["ref"; "code"; "invite"; "referrer"; "from"; "invitecode"; "refcode"].
Definition utmParams : list string :=
  ["utm_source"; "utm_medium"; "utm_campaign"; "utm_term"; "utm_content"].
Definition registrationUrls : list string :=
  ["https://h.unilive.io"; "https://unilive.io"; "https://app.unilive.io"].

(** *** [getUrlParams]

    The argument is the sequence of decoded name/value pairs that
    iterating [new URLSearchParams(window.location.search)] yields.
    Names are lower-cased; a later pair overwrites an earlier one of
    the same lower-cased name.  The result is the own properties of
    [params]. *)
Definition getUrlParams (search : list (string * string)) : gmap string string :=
  fold_left (fun result kv => Js.setProperty (Js.toLowerCase kv.1) kv.2 result) search ∅.

(** *** [isValidInviteCode], [isValidUsername] *)
Definition isValidInviteCode (code : string) : bool :=
  Js.matchClass Js.isAlnum 5 8 code.

Definition isValidUsername (username : string) : bool :=
  Js.matchClass Js.isWord 3 20 username.

(** *** [extractReferralFromUrl] *)

Record UrlReferral := mkUrlReferral {
  u_referrer : option string;
  u_inviteCode : option string;
  u_source : string
}.

(** One iteration of the loop over [validParams]; the accumulator is
    the pair of local variables [(referrer, inviteCode)]. *)
Definition genericStep (params : gmap string string)
    (acc : option string * option string) (paramName : string)
    : option string * option string :=
  match params !! paramName with
  | Some value =>
      if Js.truthy value then
        if isValidInviteCode value then (acc.1, Some value)
        else if isValidUsername value then (Some value, acc.2)
        else acc
      else acc
  | None => acc
  end.

(** The loop [for (const paramName of REFERRAL_CONFIG.validParams)]. *)
Definition genericLoop (params : gmap string string) (names : list string)
    (acc : option string * option string) : option string * option string :=
  fold_left (genericStep params) names acc.

Definition genericPass (params : gmap string string)
    : option string * option string :=
  genericLoop params validParams (None, None).

(** [params.name && pred(params.name)] *)
Definition paramIf (pred : string -> bool) (params : gmap string string)
    (name : string) : option string :=
  match params !! name with
  | Some v => if Js.truthy v && pred v then Some v else None
  | None => None
  end.

Definition extractReferralFromUrl (params : gmap string string) : UrlReferral :=
  let '(referrer, inviteCode) := genericPass params in
  let source := "url_param" in
  let referrer :=
    match paramIf isValidUsername params "ref" with
    | Some v => Some v
    | None => referrer
    end in
  let inviteCode :=
    match paramIf isValidInviteCode params "code" with
    | Some v => Some v
    | None => inviteCode
    end in
  match paramIf isValidUsername params "from" with
  | Some v => mkUrlReferral (Some v) inviteCode "shared_link"
  | None => mkUrlReferral referrer inviteCode source
  end.

(** *** The reading of the generic pass given in the specification

    First match wins: the first listed parameter whose value
    satisfies [pred].  Used only to compare with [genericPass]. *)
Fixpoint firstMatch (pred : string -> bool) (params : gmap string string)
    (names : list string) : option string :=
  match names with
  | [] => None
  | n :: rest =>
      match paramIf pred params n with
      | Some v => Some v
      | None => firstMatch pred params rest
      end
  end.

Definition genericPass_firstMatch (params : gmap string string)
    : option string * option string :=
  (firstMatch isValidUsername params validParams,
   firstMatch isValidInviteCode params validParams).

(** Last match wins: what the loop computes. *)
Definition lastMatch (pred : string -> bool) (params : gmap string string)
    (names : list string) : option string :=
  firstMatch pred params (rev names).

(** A value takes the referrer role only when it is not an invite
    code: the loop tests the invite-code pattern first. *)
Definition usernameOnly (v : string) : bool :=
  negb (isValidInviteCode v) && isValidUsername v.

(** *** Referral data *)

Record Utm := mkUtm {
  utm_source : option string;
  utm_medium : option string;
  utm_campaign : option string;
  utm_term : option string;
  utm_content : option string
}.

Definition nullUtm : Utm := mkUtm None None None None None.

(** [landingPage] is [None] where the object has no such property (the
    object rebuilt from the cookie). *)
Record ReferralState := mkReferralState {
  referrer : option string;
  inviteCode : option string;
  source : string;
  timestamp : string;
  landingPage : option string;
  utm : Utm
}.

(** The module-level [referralData] as the page is built; [now] and
    [href] are [new Date().toISOString()] and [window.location.href]. *)
Definition referralData0 (now href : string) : ReferralState :=
  mkReferralState (Some "user") (Some "ITfssi") "direct" now (Some href) nullUtm.

(** *** [extractUTMParams]: [utm[shortName] = params[param] || null] *)
Definition utmOf (params : gmap string string) (param : string) : option string :=
  Js.or (params !! param) None.

Definition extractUTMParams (params : gmap string string) : Utm :=
  mkUtm (utmOf params "utm_source") (utmOf params "utm_medium")
        (utmOf params "utm_campaign") (utmOf params "utm_term")
        (utmOf params "utm_content").

(** [Object.values(utm).some(v => v !== null)] *)
Definition someNonNull (u : Utm) : bool :=
  existsb (fun v : option string => match v with Some _ => true | None => false end)
    [utm_source u; utm_medium u; utm_campaign u; utm_term u; utm_content u].

(** *** Persisted state

    [lsReadable] and [lsWritable] say whether [localStorage.getItem]
    and [localStorage.setItem] succeed; when one throws (storage
    blocked, or the quota exceeded on a write), the [try] block around
    it swallows the exception.  [lsReferral] is the item
    [unilive_referral] and [cookieUtm] the cookie [unilive_utm]; both
    hold JSON text written by this script, each represented by the
    document it encodes ([JSON.parse] inverts [JSON.stringify] on
    records of strings and nulls).  [cookieRef] is the decoded value of
    the cookie [unilive_ref] ([decodeURIComponent] inverts
    [encodeURIComponent]); the assignments to [document.cookie] are
    outside any [try] and are taken to store the cookie. *)
Record Storage := mkStorage {
  lsReadable : bool;
  lsWritable : bool;
  lsReferral : option ReferralState;
  cookieRef : option string;
  cookieUtm : option Utm
}.

(** [localStorage] is usable: both reads and writes succeed. *)
Definition lsAvailable (st : Storage) : bool := lsReadable st && lsWritable st.

(** *** [saveReferralData] *)
Definition saveReferralData (st : Storage) (data : ReferralState) : Storage :=
  let ls := if lsWritable st then Some data else lsReferral st in
  let cookieData := Js.toStr (referrer data) ++ "|" ++ Js.toStr (inviteCode data) in
  let cu := if someNonNull (utm data) then Some (utm data) else cookieUtm st in
  mkStorage (lsReadable st) (lsWritable st) ls (Some cookieData) cu.

(** The document that [JSON.stringify(data)] writes into the item
    [unilive_referral], as [JSON.parse] gives it back: the properties
    of [referralData], under the names the script gives them. *)
Definition referralDocument (data : ReferralState) : gmap string Js.JsonValue :=
  list_to_map
    ([("referrer", Js.jsonOf (referrer data));
      ("inviteCode", Js.jsonOf (inviteCode data));
      ("source", Js.JString (source data));
      ("timestamp", Js.JString (timestamp data))]
     ++ match landingPage data with
        | Some href => [("landingPage", Js.JString href)]
        | None => []
        end
     ++ [("utm", Js.JObject [("source", utm_source (utm data));
                             ("medium", utm_medium (utm data));
                             ("campaign", utm_campaign (utm data));
                             ("term", utm_term (utm data));
                             ("content", utm_content (utm data))])]).

(** *** [loadReferralData] *)
Definition primaryLookup (st : Storage) : option ReferralState :=
  if lsReadable st then lsReferral st else None.

Definition loadReferralData (st : Storage) (now : string) : option ReferralState :=
  match primaryLookup st with
  | Some stored => Some stored
  | None =>
      let utmData := cookieUtm st in
      match cookieRef st with
      | Some cookieData =>
          if Js.truthy cookieData then
            let parts := Js.split "|"%char cookieData in
            Some (mkReferralState
                    (Js.or (parts !! 0%nat) (Some defaultReferrer))
                    (Js.or (parts !! 1%nat) (Some defaultCode))
                    "cookie" now None
                    (default nullUtm utmData))
          else None
      | None => None
      end
  end.

(** *** [initReferralTracking]: the resolution of the referral data

    [referralData] is the module-level variable as it stands when the
    function runs (its build-time value); the result is its final value
    and the storage after the call. *)
Definition hasUrlSignal (u : UrlReferral) (utmP : Utm) : bool :=
  Js.truthyO (u_referrer u) || Js.truthyO (u_inviteCode u) || someNonNull utmP.

Definition optEqb (a : option string) (s : string) : bool :=
  match a with
  | Some x => String.eqb x s
  | None => false
  end.

Definition ownerReferrer (referralData : ReferralState) : option string :=
  if optEqb (referrer referralData) "user"
     || negb (isValidUsername (Js.toStr (referrer referralData)))
  then Some defaultReferrer else referrer referralData.

Definition ownerInviteCode (referralData : ReferralState) : option string :=
  if optEqb (inviteCode referralData) "ITfssi"
     || negb (isValidInviteCode (Js.toStr (inviteCode referralData)))
  then Some defaultCode else inviteCode referralData.

Definition initReferralTracking (referralData : ReferralState)
    (params : gmap string string) (st : Storage) (now : string)
    : ReferralState * Storage :=
  let urlReferral := extractReferralFromUrl params in
  let utmP := extractUTMParams params in
  let storedReferral := loadReferralData st now in
  if hasUrlSignal urlReferral utmP then
    let data :=
      mkReferralState
        (Js.or (u_referrer urlReferral) (referrer referralData))
        (Js.or (u_inviteCode urlReferral) (inviteCode referralData))
        (u_source urlReferral) now (landingPage referralData) utmP in
    (data, saveReferralData st data)
  else
    match storedReferral with
    | Some stored => (stored, st)
    | None =>
        let data :=
          mkReferralState (ownerReferrer referralData) (ownerInviteCode referralData)
            (source referralData) (timestamp referralData)
            (landingPage referralData) (utm referralData) in
        (data, saveReferralData st data)
    end.

(** *** [updateRegistrationLinks]: the loop over the links *)

(** A parsed URL: everything before the query, the decoded query pairs
    in order ([url.searchParams]) and the fragment. *)
Record URL := mkURL {
  url_base : string;
  searchParams : list (string * string);
  url_hash : string
}.

Definition isName (name : string) (kv : string * string) : bool :=
  String.eqb kv.1 name.

(** [searchParams.has(name)] *)
Definition sp_has (name : string) (q : list (string * string)) : bool :=
  existsb (isName name) q.

(** [searchParams.get(name)] *)
Definition sp_get (name : string) (q : list (string * string)) : option string :=
  snd <$> find (isName name) q.

(** [searchParams.set(name, value)]: the first pair of that name takes
    the value and the other pairs of that name are removed; without
    such a pair, one is appended. *)
Fixpoint sp_set (name value : string) (q : list (string * string))
    : list (string * string) :=
  match q with
  | [] => [(name, value)]
  | kv :: rest =>
      if isName name kv
      then (name, value) :: List.filter (fun p => negb (isName name p)) rest
      else kv :: sp_set name value rest
  end.

Definition rewriteParams (data : ReferralState) (q : list (string * string))
    : list (string * string) :=
  let q := sp_set "recomId" (Js.toStr (inviteCode data)) q in
  let q := if sp_has "referrer" q then q
           else sp_set "referrer" (Js.toStr (referrer data)) q in
  if sp_has "source" q then q else sp_set "source" (source data) q.

(** [href && registrationUrls.some(url => href.includes(url))] *)
Definition isRegistrationHref (href : string) : bool :=
  Js.truthy href && existsb (Js.includes href) registrationUrls.

(** The second loop of [updateRegistrationLinks]: the [onclick]
    attribute of an element after the iteration.  The elements are
    those selected by [[onclick*="trackSignup"]]. *)
Definition wrappedOnclick (data : ReferralState) (originalOnclick : string) : string :=
  "updateReferralParams(event, '" ++ Js.toStr (inviteCode data) ++ "', '"
  ++ Js.toStr (referrer data) ++ "', '" ++ source data ++ "'); " ++ originalOnclick.

Definition wrapOnclick (data : ReferralState) (onclick : option string)
    : option string :=
  match onclick with
  | Some originalOnclick =>
      if Js.includes originalOnclick "trackSignup" then
        if Js.truthy originalOnclick
           && negb (Js.includes originalOnclick "updateReferralParams")
        then Some (wrappedOnclick data originalOnclick)
        else onclick
      else onclick
  | None => None
  end.

Section Links.

(** The platform's URL parser and serializer:
    [new URL(href, window.location.origin)], which throws a
    [TypeError] on an [href] that does not parse ([None]), and
    [url.toString()]. *)
Variable parseURL : string -> option URL.
Variable serializeURL : URL -> string.

(** The URL after the parameter updates of the first loop. *)
Definition rewrittenURL (data : ReferralState) (url : URL) : URL :=
  mkURL (url_base url) (rewriteParams data (searchParams url)) (url_hash url).

(** The body of [links.forEach]; the argument is
    [element.getAttribute('href')] and the result the attribute after
    the iteration, or [None] when the iteration throws. *)
Definition rewriteLink (data : ReferralState) (href : option string)
    : option (option string) :=
  match href with
  | Some h =>
      if isRegistrationHref h then
        match parseURL h with
        | Some url => Some (Some (serializeURL (rewrittenURL data url)))
        | None => None
        end
      else Some href
  | None => Some None
  end.

(** The links are the [href] attributes of the anchors of the page;
    [querySelectorAll('a[href*="unilive"]')] selects those containing
    [unilive]. *)
Definition selected (href : option string) : bool :=
  match href with
  | Some h => Js.includes h "unilive"
  | None => false
  end.

(** [links.forEach(...)]: an iteration that throws ends the loop, the
    links before it keep their new values and the others are left as
    they are.  The result is the attributes after the loop and whether
    the loop completed. *)
Fixpoint forEachLink (data : ReferralState) (links : list (option string))
    : list (option string) * bool :=
  match links with
  | [] => ([], true)
  | href :: rest =>
      if selected href then
        match rewriteLink data href with
        | Some href' =>
            let r := forEachLink data rest in (href' :: r.1, r.2)
        | None => (links, false)
        end
      else
        let r := forEachLink data rest in (href :: r.1, r.2)
  end.

(** [updateRegistrationLinks(data)]: [anchors] are the [href]
    attributes of the anchors of the page and [onclicks] the [onclick]
    attributes of its elements.  The second loop runs only when the
    first completes.  The result is both lists of attributes after the
    call and whether the call returned. *)
Definition updateRegistrationLinks (data : ReferralState)
    (anchors onclicks : list (option string))
    : list (option string) * list (option string) * bool :=
  let r := forEachLink data anchors in
  if r.2 then (r.1, wrapOnclick data <$> onclicks, true)
  else (r.1, onclicks, false).

(** Every registration link among the first [n] anchors parses. *)
Definition parsesBefore (anchors : list (option string)) (n : nat) : Prop :=
  forall j h, (j < n)%nat -> anchors !! j = Some (Some h) ->
    isRegistrationHref h = true -> is_Some (parseURL h).

(** The query after [window.updateReferralParams]: three [set] calls. *)
Definition clickParams (inviteCode referrer source : string)
    (q : list (string * string)) : list (string * string) :=
  sp_set "source" source (sp_set "referrer" referrer (sp_set "recomId" inviteCode q)).

(** [window.updateReferralParams(event, inviteCode, referrer, source)]:
    [tagName] and [href] are those of [event.currentTarget]; the result
    is its [href] attribute after the call, or [None] when the call
    throws. *)
Definition updateReferralParams (tagName : string) (href : option string)
    (inviteCode referrer source : string) : option (option string) :=
  if String.eqb tagName "A" then
    match href with
    | Some h =>
        if Js.truthy h then
          match parseURL h with
          | Some url =>
              Some (Some (serializeURL
                            (mkURL (url_base url)
                               (clickParams inviteCode referrer source (searchParams url))
                               (url_hash url))))
          | None => None
          end
        else Some href
    | None => Some None
    end
  else Some href.

End Links.

(** *** The selection of links as the specification words it

    The target host of an absolute link, the text between [://] and
    the next of [/], [?] and [#], is one of the registration domains,
    the hosts of [registrationUrls].  Used only to compare with the
    selection the code makes. *)
Definition registrationHosts : list string :=
  ["h.unilive.io"; "unilive.io"; "app.unilive.io"].

Fixpoint afterScheme (s : string) : option string :=
  match s with
  | String ":" (String "/" (String "/" rest)) => Some rest
  | String _ r => afterScheme r
  | EmptyString => None
  end.

Definition isDelimiter (c : ascii) : bool :=
  Ascii.eqb c "/"%char || Ascii.eqb c "?"%char || Ascii.eqb c "#"%char.

Fixpoint untilDelimiter (s : string) : string :=
  match s with
  | EmptyString => EmptyString
  | String c r => if isDelimiter c then EmptyString else String c (untilDelimiter r)
  end.

Definition targetHost (href : string) : option string :=
  untilDelimiter <$> afterScheme href.

Definition targetsRegistrationHost (href : string) : bool :=
  match targetHost href with
  | Some host => existsb (String.eqb host) registrationHosts
  | None => false
  end.

(** A parser and a serializer for absolute URLs [scheme://host/path]
    and [scheme://host:port/path], written in normal form and without
    escapes, used to run the link rewriter on concrete links.  On
    these the platform's parser keeps the text, and it rejects a port
    that is not a number up to 65535. *)
Definition cut (sep : ascii) (s : string) : string * option string :=
  match Js.split sep s with
  | [] => (s, None)
  | [h] => (h, None)
  | h :: t => (h, Some (String.concat (String sep EmptyString) t))
  end.

Fixpoint decimal (acc : N) (digits : string) : N :=
  match digits with
  | EmptyString => acc
  | String c r => decimal (acc * 10 + (N_of_ascii c - 48))%N r
  end.

Definition validPort (href : string) : bool :=
  match targetHost href with
  | Some authority =>
      match (cut ":"%char authority).2 with
      | Some port => Js.allChars Js.isDigit port && (decimal 0 port <=? 65535)%N
      | None => true
      end
  | None => true
  end.

Definition plainParse (href : string) : option URL :=
  let (beforeHash, hash) := cut "#"%char href in
  let (base, query) := cut "?"%char beforeHash in
  let pairs :=
    match query with
    | Some q =>
        map (fun kv => let (k, v) := cut "="%char kv in (k, default "" v))
            (List.filter Js.truthy (Js.split "&"%char q))
    | None => []
    end in
  if validPort href
  then Some (mkURL base pairs (match hash with Some h => "#" ++ h | None => "" end))
  else None.

Definition plainSerialize (url : URL) : string :=
  url_base url
  ++ match searchParams url with
     | [] => ""
     | q => "?" ++ String.concat "&" (map (fun kv => kv.1 ++ "=" ++ kv.2) q)
     end
  ++ url_hash url.

(** *** The precedence rule as the specification words it

    [dflt] is the pair of deploy-time defaults (referrer, invite code)
    that the specification refers to in both the URL branch and the
    last branch.  Used only to compare with [initReferralTracking]. *)
Definition resolvesAsSpecified (dflt : option string * option string)
    (referralData : ReferralState) (params : gmap string string)
    (st : Storage) (now : string) : Prop :=
  let u := extractReferralFromUrl params in
  let utmP := extractUTMParams params in
  let r := (initReferralTracking referralData params st now).1 in
  if hasUrlSignal u utmP then
    referrer r = Js.or (u_referrer u) dflt.1
    /\ inviteCode r = Js.or (u_inviteCode u) dflt.2
    /\ utm r = utmP
  else
    match loadReferralData st now with
    | Some stored => r = stored
    | None => referrer r = dflt.1 /\ inviteCode r = dflt.2
    end.

(** A storage with nothing persisted. *)
Definition emptyStorage (available : bool) : Storage :=
  mkStorage available available None None None.

(** A value that survives the compact cookie encoding
    [referrer|inviteCode]: not null, not empty and free of the
    separator. *)
Definition notBar (c : ascii) : bool := negb (Ascii.eqb c "|"%char).

Definition cookieSafe (v : option string) : bool :=
  match v with
  | Some s => Js.truthy s && Js.allChars notBar s
  | None => false
  end.

(** The three parameters the link rewriter writes. *)
Definition attributionNames : list string := ["recomId"; "referrer"; "source"].

(** A query pair of another name. *)
Definition otherParam (kv : string * string) : bool :=
  negb (existsb (String.eqb kv.1) attributionNames).

(** *** Further parts of the referral tracker *)

(** The value [getUrlParams] holds for a lower-case name: the value of
    the last pair of the query whose name lower-cases to it. *)
Definition lastValue (name : string) (search : list (string * string))
    : option string :=
  snd <$> find (fun kv => String.eqb (Js.toLowerCase kv.1) name) (rev search).

End Referral.

(* ===================================================================== *)
(** ** The analytics tracker: the event pipeline                          *)
(* ===================================================================== *)

Module Tracker.

(** *** Configuration: [window.AnalyticsConfig]

    [endpointUrl] is [config.endpoints[config.backend]]: [None] when
    there is no endpoint of that name, otherwise its [url] property
    ([None] when missing).  [initialMaxRetries] is the value of
    [options.maxRetries] when the page loads; the tracker mutates the
    option itself, so its current value lives in the state. *)
Record Config := mkConfig {
  backend : string;
  endpointUrl : option (option string);
  trackPageViews : bool;
  trackClicks : bool;
  trackRegistrations : bool;
  initialMaxRetries : Z;
  retryDelay : Z
}.

(** The options of the configuration file, for a page built for the
    Supabase backend. *)
Definition defaultConfig : Config :=
  mkConfig "supabase" (Some (Some "https://project.supabase.co"))
           true true true 3 1000.

(** [!endpoint || !endpoint.url || endpoint.url.includes('%')] negated. *)
Definition configured (cfg : Config) : bool :=
  match endpointUrl cfg with
  | Some (Some url) => Js.truthy url && negb (Js.includes url "%")
  | _ => false
  end.

(** The cases of the [switch (backend)]. *)
Definition knownBackend (cfg : Config) : bool :=
  existsb (String.eqb (backend cfg)) ["supabase"; "nestjs"; "laravel"; "custom"].

(** *** Requests *)

(** The payloads the tracker builds, by the function that builds them. *)
Inductive Payload :=
| PageViewData
| TimeOnPageData (timeOnPage clicksCount : Z)
| CtaClickData (clicksCount : Z)
| RegisteredData
| FieldData (field value : string)
| EventData (visitorAnalyticsId : option string) (eventType : string).

Record Request := mkRequest {
  req_data : Payload;
  req_isUpdate : bool
}.

(** A network call as issued: for an update the URL carries the record
    identifier ([isUpdate && analyticsData.recordId]); [call_beacon]
    marks the [navigator.sendBeacon] of the final update. *)
Record NetCall := mkNetCall {
  call_data : Payload;
  call_isUpdate : bool;
  call_recordId : option string;
  call_beacon : bool
}.

(** How a [fetch] ends. *)
Inductive FetchResult :=
| NetworkError
| HttpError (status : Z)
| HttpOk (id : option string)
| HttpOkUnparsable.

(** The value the backend function returns: [None] when it throws,
    otherwise the [id] property of the response.  The Supabase update
    returns [null] without reading the body. *)
Definition settle (cfg : Config) (isUpdate : bool) (r : FetchResult)
    : option (option string) :=
  match r with
  | NetworkError => None
  | HttpError _ => None
  | HttpOk id =>
      if String.eqb (backend cfg) "supabase" && isUpdate then Some None else Some id
  | HttpOkUnparsable =>
      if String.eqb (backend cfg) "supabase" && isUpdate then Some None else None
  end.

(** *** State

    [maxRetries] is [config.options.maxRetries]; [recordId] and
    [clicks] are fields of [analyticsData].  [inflight] holds the
    requests whose [fetch] has not settled, [timers] the pending
    [setTimeout] callbacks of the retry logic with their delay.
    [network] logs the calls issued and [scheduled] the delays passed
    to [setTimeout], both oldest first. *)
Record State := mkState {
  maxRetries : Z;
  recordId : option string;
  clicks : Z;
  inflight : list Request;
  timers : list (Z * Request);
  network : list NetCall;
  scheduled : list Z
}.

Definition init (cfg : Config) : State :=
  mkState (initialMaxRetries cfg) None 0 [] [] [] [].

(** The call the backend function issues for a request: for an update,
    [isUpdate && analyticsData.recordId] decides whether the URL names
    the record. *)
Definition callOf (s : State) (req : Request) : NetCall :=
  mkNetCall (req_data req) (req_isUpdate req)
    (if req_isUpdate req && Js.truthyO (recordId s) then recordId s else None)
    false.

(** *** [sendToBackend], up to the [await] of the [fetch] *)
Definition sendToBackend (cfg : Config) (s : State) (req : Request) : State :=
  if negb (configured cfg) then s
  else if negb (knownBackend cfg) then s
  else
    mkState (maxRetries s) (recordId s) (clicks s)
            (inflight s ++ [req]) (timers s)
            (network s ++ [callOf s req]) (scheduled s).

(** [sendToBackend] after the [await]: the response is inspected, or
    the [catch] block runs. *)
Definition afterFetch (cfg : Config) (s : State) (req : Request)
    (r : FetchResult) : State :=
  match settle cfg (req_isUpdate req) r with
  | Some id =>
      if Js.truthyO id && negb (Js.truthyO (recordId s))
      then mkState (maxRetries s) id (clicks s) (inflight s) (timers s)
                   (network s) (scheduled s)
      else s
  | None =>
      if (0 <? maxRetries s)%Z
      then mkState (maxRetries s) (recordId s) (clicks s) (inflight s)
                   (timers s ++ [(retryDelay cfg, req)])
                   (network s) (scheduled s ++ [retryDelay cfg])
      else s
  end.

(** The callback given to [setTimeout]. *)
Definition retryCallback (cfg : Config) (s : State) (req : Request) : State :=
  sendToBackend cfg
    (mkState (maxRetries s - 1) (recordId s) (clicks s) (inflight s)
             (timers s) (network s) (scheduled s))
    req.

(** *** Tracking functions *)

(** [trackPageView] also starts the interval of [updateTimeOnPage];
    its ticks are events of the loop below. *)
Definition trackPageView (cfg : Config) (s : State) : State :=
  if negb (trackPageViews cfg) then s
  else sendToBackend cfg s (mkRequest PageViewData false).

Definition updateTimeOnPage (cfg : Config) (s : State) (timeOnPage : Z) : State :=
  if negb (Js.truthyO (recordId s)) then s
  else sendToBackend cfg s (mkRequest (TimeOnPageData timeOnPage (clicks s)) true).

Definition trackClick (cfg : Config) (s : State) (isCtaButton : bool) : State :=
  if negb (trackClicks cfg) then s
  else
    let s := mkState (maxRetries s) (recordId s) (clicks s + 1) (inflight s)
                     (timers s) (network s) (scheduled s) in
    if isCtaButton && Js.truthyO (recordId s)
    then sendToBackend cfg s (mkRequest (CtaClickData (clicks s)) true)
    else s.

Definition trackRegistration (cfg : Config) (s : State) : State :=
  if negb (trackRegistrations cfg) || negb (Js.truthyO (recordId s)) then s
  else sendToBackend cfg s (mkRequest RegisteredData true).

Definition sendFinalUpdate (cfg : Config) (s : State) (timeOnPage : Z)
    (hasBeacon : bool) : State :=
  if negb (Js.truthyO (recordId s)) then s
  else
    match endpointUrl cfg with
    | Some _ =>
        if hasBeacon
        then mkState (maxRetries s) (recordId s) (clicks s) (inflight s) (timers s)
               (network s ++ [mkNetCall (TimeOnPageData timeOnPage (clicks s))
                                        true (recordId s) true])
               (scheduled s)
        else s
    | None => s
    end.

(** [UniLiveAnalytics.trackEvent] and [UniLiveAnalytics.updateField] *)
Definition trackEvent (cfg : Config) (s : State) (eventType : string) : State :=
  sendToBackend cfg s (mkRequest (EventData (recordId s) eventType) false).

Definition updateField (cfg : Config) (s : State) (field value : string) : State :=
  if Js.truthyO (recordId s)
  then sendToBackend cfg s (mkRequest (FieldData field value) true)
  else s.

(** *** The event loop

    What the page, the visitor, the network and the timers can make
    happen.  [EFetchSettled i r] settles the [i]-th request in flight
    with [r]; [ETimerFired i] runs the [i]-th pending retry callback. *)
Inductive Event :=
| EPageView
| ETimeOnPage (timeOnPage : Z)
| EClick (isCtaButton : bool)
| ERegistration
| EUnload (timeOnPage : Z) (hasBeacon : bool)
| ETrackEvent (eventType : string)
| EUpdateField (field value : string)
| EFetchSettled (i : nat) (r : FetchResult)
| ETimerFired (i : nat).

Definition step (cfg : Config) (s : State) (ev : Event) : State :=
  match ev with
  | EPageView => trackPageView cfg s
  | ETimeOnPage t => updateTimeOnPage cfg s t
  | EClick cta => trackClick cfg s cta
  | ERegistration => trackRegistration cfg s
  | EUnload t b => sendFinalUpdate cfg s t b
  | ETrackEvent ty => trackEvent cfg s ty
  | EUpdateField f v => updateField cfg s f v
  | EFetchSettled i r =>
      match inflight s !! i with
      | Some req =>
          afterFetch cfg
            (mkState (maxRetries s) (recordId s) (clicks s) (delete i (inflight s))
                     (timers s) (network s) (scheduled s))
            req r
      | None => s
      end
  | ETimerFired i =>
      match timers s !! i with
      | Some (_, req) =>
          retryCallback cfg
            (mkState (maxRetries s) (recordId s) (clicks s) (inflight s)
                     (delete i (timers s)) (network s) (scheduled s))
            req
      | None => s
      end
  end.

Definition run (cfg : Config) (s : State) (evs : list Event) : State :=
  fold_left (step cfg) evs s.

(** *** Notions used to state the properties *)

(** The events of the update paths. *)
Definition isUpdatePath (ev : Event) : bool :=
  match ev with
  | ETimeOnPage _ | EClick _ | ERegistration | EUnload _ _ | EUpdateField _ _ => true
  | _ => false
  end.

(** The number of retries performed along a run: the retry callbacks
    that ran. *)
Definition isRetry (s : State) (ev : Event) : bool :=
  match ev with
  | ETimerFired i => match timers s !! i with Some _ => true | None => false end
  | _ => false
  end.

Fixpoint retries (cfg : Config) (s : State) (evs : list Event) : nat :=
  match evs with
  | [] => 0
  | ev :: rest =>
      ((if isRetry s ev then 1 else 0) + retries cfg (step cfg s ev) rest)%nat
  end.

(** A run in which at most one retry is pending at any time. *)
Fixpoint sequential (cfg : Config) (s : State) (evs : list Event) : bool :=
  (length (timers s) <=? 1)%nat &&
  match evs with
  | [] => true
  | ev :: rest => sequential cfg (step cfg s ev) rest
  end.

(** One request whose every attempt fails: the first failure, then
    [n] times a retry and its failure. *)
Fixpoint failingChain (n : nat) : list Event :=
  match n with
  | O => [EFetchSettled 0 NetworkError]
  | S k => failingChain k ++ [ETimerFired 0; EFetchSettled 0 NetworkError]
  end.

(** The delays of an exponential backoff from one second, as the
    specification words the retry policy. *)
Definition exponentialDelays (n : nat) : list Z :=
  map (fun k => (1000 * 2 ^ Z.of_nat k)%Z) (seq 0 n).

(** The page-view request as it is issued while no record identifier
    is known. *)
Definition pageViewCall : NetCall := mkNetCall PageViewData false None false.

(** No update is pending or has been sent. *)
Definition noUpdates (s : State) : Prop :=
  Forall (fun r => req_isUpdate r = false) (inflight s)
  /\ Forall (fun t : Z * Request => req_isUpdate t.2 = false) (timers s)
  /\ Forall (fun c => call_isUpdate c = false) (network s).

(** Every update sent names a captured record identifier. *)
Definition updatesCarryId (s : State) : Prop :=
  Forall (fun c => call_isUpdate c = true -> Js.truthyO (call_recordId c) = true)
         (network s).

Definition gated (s : State) : Prop :=
  updatesCarryId s /\ (Js.truthyO (recordId s) = false -> noUpdates s).

(** Four events sent while the network is down: the calls, their
    failures, the four retries and their failures. *)
Definition burst : list Event :=
  [ETrackEvent "a"; ETrackEvent "b"; ETrackEvent "c"; ETrackEvent "d";
   EFetchSettled 0 NetworkError; EFetchSettled 0 NetworkError;
   EFetchSettled 0 NetworkError; EFetchSettled 0 NetworkError;
   ETimerFired 0; ETimerFired 0; ETimerFired 0; ETimerFired 0;
   EFetchSettled 0 NetworkError; EFetchSettled 0 NetworkError;
   EFetchSettled 0 NetworkError; EFetchSettled 0 NetworkError].

(** *** Further parts of the tracker *)

(** [mapFields]: [mapping] is the own properties of
    [config.fieldMappings[config.backend]] ([None] when there is no
    such object: the data is returned as it is), [entries] is
    [Object.entries(data)] and the result is the own properties of the
    object built.

    [mapping[key]] reads through the prototype chain: for a key that
    the mapping does not hold itself and that [Object.prototype]
    defines, it is the inherited function or object, which is truthy,
    and the field is stored under the property key that value
    converts to, [inheritedKey key]. *)
Definition renameField (inheritedKey : string -> string)
    (mapping : gmap string string) (key : string) : string :=
  match mapping !! key with
  | Some name => if Js.truthy name then name else key
  | None => if Js.inherited key then inheritedKey key else key
  end.

Definition mapFields {V : Type} (inheritedKey : string -> string)
    (mapping : option (gmap string string))
    (entries : list (string * V)) : gmap string V :=
  match mapping with
  | None => fold_left (fun mapped kv => <[kv.1 := kv.2]> mapped) entries ∅
  | Some m =>
      fold_left
        (fun mapped kv => Js.setProperty (renameField inheritedKey m kv.1) kv.2 mapped)
        entries ∅
  end.

(** The text a built-in function or object is converted to, as one
    engine gives it. *)
Definition nativeText (name : string) : string :=
  if String.eqb name "__proto__" then "[object Object]"
  else "function " ++ (if String.eqb name "constructor" then "Object" else name)
       ++ "() { [native code] }".

(** [fieldMappings.supabase] of the configuration file. *)
Definition supabaseMapping : gmap string string :=
  list_to_map
    [("visitorId", "visitor_id"); ("sessionId", "session_id");
     ("pageOwnerUsername", "page_owner_username");
     ("pageOwnerInviteCode", "page_owner_invite_code");
     ("pageUrl", "page_url"); ("referrerUrl", "referrer_url");
     ("referralSource", "referral_source"); ("referralCode", "referral_code");
     ("referralType", "referral_type"); ("utmSource", "utm_source");
     ("utmMedium", "utm_medium"); ("utmCampaign", "utm_campaign");
     ("utmTerm", "utm_term"); ("utmContent", "utm_content");
     ("deviceType", "device_type"); ("userAgent", "user_agent");
     ("screenWidth", "screen_width"); ("screenHeight", "screen_height");
     ("language", "page_language"); ("timeOnPage", "time_on_page");
     ("clicksCount", "clicks_count"); ("ctaClicked", "cta_clicked");
     ("registered", "registered")].

(** [getVisitorId]: [storage] is [localStorage]; [random] and [now] are
    the texts of [Math.random().toString(36).substr(2, 9)] and
    [Date.now()].  The result is the identifier and the storage after
    the call. *)
Definition getVisitorId (storage : gmap string string) (random now : string)
    : string * gmap string string :=
  if Js.truthyO (storage !! "unilive_visitor_id") then
    (default "" (storage !! "unilive_visitor_id"), storage)
  else
    let visitorId := "v_" ++ random ++ now in
    (visitorId, <["unilive_visitor_id" := visitorId]> storage).

(** [getReferralInfo].  The item [unilive_referral] is the one the
    referral tracker writes; [stored] is
    [JSON.parse(localStorage.getItem('unilive_referral') || '{}')].
    The access to [localStorage] is outside any [try]: when it throws,
    so does the function ([None]).  [search] lists the pairs of
    [new URLSearchParams(window.location.search)]. *)
Record ReferralInfo := mkReferralInfo {
  referralSource : Js.JsonValue;
  referralCode : Js.JsonValue;
  referralType : string;
  utmSource : option string;
  utmMedium : option string;
  utmCampaign : option string;
  utmTerm : option string;
  utmContent : option string
}.

(** [urlParams.get(name) || null] *)
Definition urlGet (name : string) (search : list (string * string)) : option string :=
  Js.or (Referral.sp_get name search) None.

(** [stored.property || urlParams.get(name) || null] *)
Definition storedOr (stored : gmap string Js.JsonValue) (property name : string)
    (search : list (string * string)) : Js.JsonValue :=
  match stored !! property with
  | Some v => if Js.truthyJ v then v else Js.jsonOf (urlGet name search)
  | None => Js.jsonOf (urlGet name search)
  end.

Definition storedReferral (st : Referral.Storage) : gmap string Js.JsonValue :=
  match Referral.lsReferral st with
  | Some data => Referral.referralDocument data
  | None => ∅
  end.

Definition getReferralInfo (st : Referral.Storage) (search : list (string * string))
    : option ReferralInfo :=
  if Referral.lsReadable st then
    let stored := storedReferral st in
    Some (mkReferralInfo
            (storedOr stored "referrer" "ref" search)
            (storedOr stored "code" "code" search)
            (match stored !! "referrer" with
             | Some v => if Js.truthyJ v then "referral" else "organic"
             | None => "organic"
             end)
            (urlGet "utm_source" search) (urlGet "utm_medium" search)
            (urlGet "utm_campaign" search) (urlGet "utm_term" search)
            (urlGet "utm_content" search))
  else None.

(** [UniLiveAnalytics.getStats], its numeric fields: [totalVisitors]
    is the constant 1 and [registrations] is
    [analyticsData.registered ? 1 : 0], a field the tracker never
    assigns. *)
Definition getStats (s : State) : gmap string Z :=
  <["totalVisitors" := 1%Z]> (<["registrations" := 0%Z]> ∅).

(** [checkHighEngagement]: [tracked] is
    [analyticsData.highEngagementTracked]; [hasTrackEvent] says whether
    [window.UniLiveAnalytics.trackEvent] exists.  The result is the
    flag after the call and whether a [high_engagement] event was
    tracked. *)
Definition checkHighEngagement (tracked : bool) (timeOnPage clicks : Z)
    (hasTrackEvent : bool) : bool * bool :=
  if ((120 <? timeOnPage)%Z || (10 <? clicks)%Z) && negb tracked
  then (true, hasTrackEvent)
  else (tracked, false).

(** The ticks of the engagement timer: each observation is the time on
    page, the click count and [hasTrackEvent] at a tick; the result
    counts the events tracked. *)
Fixpoint engagementEvents (tracked : bool) (ticks : list (Z * Z * bool)) : nat :=
  match ticks with
  | [] => 0
  | (timeOnPage, clicks, hasTrackEvent) :: rest =>
      let (tracked', fired) := checkHighEngagement tracked timeOnPage clicks hasTrackEvent in
      ((if fired then 1 else 0) + engagementEvents tracked' rest)%nat
  end.

(** The clicks among the events of a run. *)
Definition countClicks (evs : list Event) : nat :=
  length (List.filter (fun ev => match ev with EClick _ => true | _ => false end) evs).

(** The configuration file as shipped, its placeholders unresolved:
    the backend name is [%ANALYTICS_BACKEND%], which names no endpoint. *)
Definition shippedConfig : Config :=
  mkConfig "%ANALYTICS_BACKEND%" None true true true 3 1000.

End Tracker.

(* ===================================================================== *)
(** ** The webhook script: milestones                                     *)
(* ===================================================================== *)

Module Webhooks.

(** *** [MILESTONES]: the thresholds by type

    [None] for any other name: [MILESTONES[type]?.includes(value)] is
    then [undefined].  (For a name inherited from [Object.prototype]
    the call throws instead; nothing is recorded or handed over either
    way.) *)
Definition visitorsThresholds : list Z := [10; 50; 100; 500; 1000; 5000; 10000]%Z.
Definition registrationsThresholds : list Z := [1; 5; 10; 25; 50; 100; 500]%Z.
Definition referralsThresholds : list Z := [5; 10; 25; 50; 100]%Z.

Definition MILESTONES (type : string) : option (list Z) :=
  if String.eqb type "visitors" then Some visitorsThresholds
  else if String.eqb type "registrations" then Some registrationsThresholds
  else if String.eqb type "referrals" then Some referralsThresholds
  else None.

(** The interval of [monitorMilestones], in milliseconds. *)
Definition monitorInterval : Z := 60000.

(** The template literal [`${type}_${value}`]. *)
Definition milestoneKey (type : string) (value : Z) : string :=
  type ++ "_" ++ pretty value.

(** The payload handed to [sendWebhook(WEBHOOK_CONFIG.endpoints.milestone, _)]:
    the milestone and the metadata. *)
Record Webhook := mkWebhook {
  w_type : string;
  w_value : Z;
  w_achieved_at : Z;
  w_metadata : gmap string Z
}.

Definition webhookKey (w : Webhook) : string := milestoneKey (w_type w) (w_value w).

(** *** State

    [achievedMilestones] is the in-memory object; an entry holds the
    instant its ISO timestamp denotes (such a string is never empty, so
    an entry present is truthy).  [persisted] is the document held by
    the [localStorage] item [unilive_milestones]; [storageWritable]
    says whether [localStorage.setItem] succeeds (it throws otherwise).
    [dispatched] lists the milestone webhooks handed to [sendWebhook],
    oldest first. *)
Record State := mkState {
  achievedMilestones : gmap string Z;
  persisted : gmap string Z;
  storageWritable : bool;
  dispatched : list Webhook
}.

(** The state when the script starts:
    [achievedMilestones = JSON.parse(localStorage.getItem(STORAGE_KEY) || '{}')]. *)
Definition pageLoad (stored : gmap string Z) (writable : bool) : State :=
  mkState stored stored writable [].

(** [MILESTONES[type]?.includes(value)] *)
Definition isThreshold (type : string) (value : Z) : bool :=
  match MILESTONES type with
  | Some l => existsb (Z.eqb value) l
  | None => false
  end.

(** *** [checkMilestone]

    The boolean says whether the call returned ([true]) or threw
    ([false]: [localStorage.setItem] failed, after the in-memory entry
    was written and before the webhook was handed over). *)
Definition checkMilestone (s : State) (type : string) (value : Z)
    (metadata : gmap string Z) (now : Z) : State * bool :=
  let key := milestoneKey type value in
  match achievedMilestones s !! key with
  | Some _ => (s, true)
  | None =>
      if isThreshold type value then
        let achieved := <[key := now]> (achievedMilestones s) in
        if storageWritable s then
          (mkState achieved achieved true
                   (dispatched s ++ [mkWebhook type value now metadata]),
           true)
        else
          (mkState achieved (persisted s) false (dispatched s), false)
      else (s, true)
  end.

(** *** The callback of [monitorMilestones]

    [thresholds.forEach(milestone => { if (current >= milestone)
    checkMilestone(type, milestone, stats) })]; an exception leaves
    the loop. *)
Fixpoint forEachThreshold (s : State) (type : string) (current : Z)
    (stats : gmap string Z) (now : Z) (thresholds : list Z) : State * bool :=
  match thresholds with
  | [] => (s, true)
  | milestone :: rest =>
      if (milestone <=? current)%Z then
        let (s', returned) := checkMilestone s type milestone stats now in
        if returned then forEachThreshold s' type current stats now rest
        else (s', false)
      else forEachThreshold s type current stats now rest
  end.

(** [if (stats.field) { ... }]: the field is present and not zero. *)
Definition statIfTruthy (stats : gmap string Z) (field : string) : option Z :=
  match stats !! field with
  | Some v => if (v =? 0)%Z then None else Some v
  | None => None
  end.

(** One tick of the interval.  [stats] is [None] when
    [window.UniLiveAnalytics.getStats] is missing; [now] stands for the
    instants read by the calls of [checkMilestone] during the tick. *)
Definition monitorTick (s : State) (stats : option (gmap string Z)) (now : Z) : State :=
  match stats with
  | None => s
  | Some stats =>
      let (s1, returned) :=
        match statIfTruthy stats "totalVisitors" with
        | Some v => forEachThreshold s "visitors" v stats now visitorsThresholds
        | None => (s, true)
        end in
      if returned then
        match statIfTruthy stats "registrations" with
        | Some v =>
            (forEachThreshold s1 "registrations" v stats now registrationsThresholds).1
        | None => s1
        end
      else s1
  end.

(** *** Runs of the script *)
Inductive Event :=
| ECheck (type : string) (value : Z) (metadata : gmap string Z) (now : Z)
| ETick (stats : option (gmap string Z)) (now : Z)
| EStorage (writable : bool)
| EReload.

Definition step (s : State) (ev : Event) : State :=
  match ev with
  | ECheck type value metadata now => (checkMilestone s type value metadata now).1
  | ETick stats now => monitorTick s stats now
  | EStorage w => mkState (achievedMilestones s) (persisted s) w (dispatched s)
  | EReload => mkState (persisted s) (persisted s) (storageWritable s) (dispatched s)
  end.

Definition run (s : State) (evs : list Event) : State := fold_left step evs s.

(** *** Notions used to state the properties *)

(** The milestones due in a category: its thresholds not above the
    current value. *)
Definition due (type : string) (current : option Z) (thresholds : list Z)
    : list (string * Z) :=
  match current with
  | Some v => map (pair type) (List.filter (fun m => (m <=? v)%Z) thresholds)
  | None => []
  end.

(** The milestones due in the categories the tick evaluates. *)
Definition dueOnTick (stats : gmap string Z) : list (string * Z) :=
  (due "visitors" (stats !! "totalVisitors") visitorsThresholds
   ++ due "registrations" (stats !! "registrations") registrationsThresholds)%list.

(** The milestones due in the three categories the specification
    names; the referral count would be the field [referrals] of the
    stats.  Used only to compare with [monitorTick]. *)
Definition dueAsSpecified (stats : gmap string Z) : list (string * Z) :=
  (dueOnTick stats
   ++ due "referrals" (stats !! "referrals") referralsThresholds)%list.

Definition keyOf (m : string * Z) : string := milestoneKey m.1 m.2.

(** The due milestones that are not recorded yet. *)
Definition fresh (s : State) (ms : list (string * Z)) : list (string * Z) :=
  List.filter (fun m => match achievedMilestones s !! keyOf m with
                        | Some _ => false
                        | None => true
                        end) ms.

Definition webhookFor (stats : gmap string Z) (now : Z) (m : string * Z) : Webhook :=
  mkWebhook m.1 m.2 now stats.

(** The invariant of a run, relative to the webhooks [old] already
    handed over and the entries [base] already persisted at some point:
    persisted entries stay, what is persisted is in memory, and the
    webhooks handed over since then have distinct keys, none of them in
    [base], all of them persisted. *)
Definition firesOnce (old : list Webhook) (base : gmap string Z) (s : State) : Prop :=
  base ⊆ persisted s
  /\ persisted s ⊆ achievedMilestones s
  /\ exists new,
       dispatched s = (old ++ new)%list
       /\ NoDup (webhookKey <$> new)
       /\ forall w, w ∈ new ->
            base !! webhookKey w = None /\ is_Some (persisted s !! webhookKey w).

(** Stats with ten visitors, one registration and five referrals. *)
Definition sampleStats : gmap string Z :=
  <["totalVisitors" := 10%Z]> (<["registrations" := 1%Z]> (<["referrals" := 5%Z]> ∅)).

Definition visitorStats (n : Z) : gmap string Z := <["totalVisitors" := n]> ∅.

(** *** [sendWebhook]

    [WEBHOOK_CONFIG]: [wh_secret] is given by its UTF-16 code units,
    [wh_retries] is [parseInt(...) || 3] and [wh_timeout] the delay
    after which a request is aborted. *)
Record WebhookConfig := mkWebhookConfig {
  wh_enabled : bool;
  wh_secret : list N;
  wh_retries : Z;
  wh_timeout : Z
}.

(** The configuration as shipped, its placeholders unresolved. *)
Definition shippedWebhookConfig : WebhookConfig :=
  mkWebhookConfig false (Js.codeUnits "%WEBHOOK_SECRET%") 3 5000.

(** A payload, as far as [sendWebhook] looks at it: [p_nullish] says
    that it is [null] or [undefined], on which [payload.event] throws;
    [p_json] is the text that [JSON.stringify(payload)] gives and the
    signature concatenates, by its code units, and [None] when
    [JSON.stringify] throws (a cyclic structure). *)
Record Payload := mkPayload {
  p_nullish : bool;
  p_json : option (list N)
}.

(** [btoa] accepts the texts whose code units are all below 256 and
    throws on the others. *)
Definition latin1 (text : list N) : bool :=
  forallb (fun c => (c <=? 255)%N) text.

(** [generateSignature(payload)]: the empty signature without a
    secret, otherwise the encoding of [data + secret], given by the
    text encoded; [None] when the call throws. *)
Inductive Signature :=
| Unsigned
| Signed (text : list N).

Definition generateSignature (cfg : WebhookConfig) (payload : Payload)
    : option Signature :=
  match wh_secret cfg with
  | [] => Some Unsigned
  | _ =>
      match p_json payload with
      | Some data =>
          let text := (data ++ wh_secret cfg)%list in
          if latin1 text then Some (Signed text) else None
      | None => None
      end
  end.

(** The statements of [sendWebhook] between the guard and the [try]
    block: the signature and the headers.  When one of them throws,
    the call ends there: nothing is sent and nothing is scheduled. *)
Definition headersBuilt (cfg : WebhookConfig) (payload : Payload) : bool :=
  match generateSignature cfg payload with
  | Some _ => negb (p_nullish payload)
  | None => false
  end.

(** How one run of the [try] block ends: a response that is [ok], a
    response that is not, or an exception (the body cannot be
    serialized, a transport failure, or the abort when the timeout
    elapses). *)
Inductive Attempt := Delivered | Rejected | Failed.

(** [!WEBHOOK_CONFIG.enabled || !endpoint || endpoint.includes('%')]
    negated. *)
Definition deliverable (cfg : WebhookConfig) (endpoint : string) : bool :=
  wh_enabled cfg && Js.truthy endpoint && negb (Js.includes endpoint "%").

(** [Math.pow(2, exponent) * 1000] for an integer exponent: a whole
    number of milliseconds when the exponent is not negative, the
    fraction [1000 / 2 ^ -exponent] otherwise.  (Exact for the
    exponents from -1074 to 1014, the range of the doubles.) *)
Inductive Delay :=
| Millis (ms : Z)
| MillisOver (divisor : Z).

Definition backoff (exponent : Z) : Delay :=
  if (0 <=? exponent)%Z then Millis (2 ^ exponent * 1000)
  else MillisOver (2 ^ (- exponent)).

(** [sendWebhook(endpoint, payload, retries)] for an integer [retries].
    [attempts] gives the end of each successive run of the [try]
    block; the result lists the delays passed to [setTimeout], in
    order.  After the last delay, or with none, the [try] block runs
    once more. *)
Fixpoint sendWebhookFrom (cfg : WebhookConfig) (endpoint : string)
    (payload : Payload) (attempts : list Attempt) (retries : Z) : list Delay :=
  if negb (deliverable cfg endpoint) then []
  else if negb (headersBuilt cfg payload) then []
  else
    match attempts with
    | [] => []
    | Delivered :: _ => []
    | _ :: rest =>
        if (0 <? retries)%Z
        then backoff (wh_retries cfg - retries)
             :: sendWebhookFrom cfg endpoint payload rest (retries - 1)
        else []
    end.

(** The call as the script and the exposed [send] make it: [retries]
    is [None] when the argument is left out and the default
    [WEBHOOK_CONFIG.retries] applies. *)
Definition sendWebhook (cfg : WebhookConfig) (endpoint : string)
    (payload : Payload) (retries : option Z) (attempts : list Attempt) : list Delay :=
  sendWebhookFrom cfg endpoint payload attempts (default (wh_retries cfg) retries).

(** The runs of the [try] block for one webhook. *)
Definition webhookAttempts (cfg : WebhookConfig) (endpoint : string)
    (payload : Payload) (retries : option Z) (attempts : list Attempt) : nat :=
  if deliverable cfg endpoint && headersBuilt cfg payload
  then S (length (sendWebhook cfg endpoint payload retries attempts))
  else 0.

(** The attempts that fail before the first delivery. *)
Fixpoint leadingFailures (attempts : list Attempt) : nat :=
  match attempts with
  | [] => 0
  | Delivered :: _ => 0
  | _ :: rest => S (leadingFailures rest)
  end.

(** *** Notions used for the runs without reload *)

Definition noReload (evs : list Event) : bool :=
  forallb (fun ev => match ev with EReload => false | _ => true end) evs.

(** Since state [s0], the entry of [key] is in memory and no webhook of
    that key was handed over. *)
Definition keyHeld (key : string) (s0 s : State) : Prop :=
  is_Some (achievedMilestones s !! key)
  /\ exists new,
       dispatched s = (dispatched s0 ++ new)%list
       /\ forall w, w ∈ new -> webhookKey w <> key.

End Webhooks.

(* ===================================================================== *)
(** ** Properties of the referral tracker                                 *)
(* ===================================================================== *)

Import Referral.

(** The loop body in terms of the two roles. *)
Lemma genericStep_roles (params : gmap string string) acc n :
  genericStep params acc n =
  (match paramIf usernameOnly params n with Some v => Some v | None => acc.1 end,
   match paramIf isValidInviteCode params n with Some v => Some v | None => acc.2 end).
Proof.
  unfold genericStep, paramIf, usernameOnly.
  destruct (params !! n) as [v|]; [|by destruct acc].
  destruct (Js.truthy v); [|by destruct acc]. simpl.
  destruct (isValidInviteCode v); simpl; [done|].
  destruct (isValidUsername v); by destruct acc.
Qed.

Lemma lastMatch_snoc pred (params : gmap string string) names n :
  lastMatch pred params (names ++ [n]) =
  match paramIf pred params n with
  | Some v => Some v
  | None => lastMatch pred params names
  end.
Proof. unfold lastMatch. by rewrite rev_app_distr. Qed.

Lemma genericLoop_roles (params : gmap string string) names acc :
  genericLoop params names acc =
  (match lastMatch usernameOnly params names with Some v => Some v | None => acc.1 end,
   match lastMatch isValidInviteCode params names with Some v => Some v | None => acc.2 end).
Proof.
  induction names as [|n names IH] using rev_ind.
  - by destruct acc.
  - unfold genericLoop in *. rewrite fold_left_app. simpl.
    rewrite IH, genericStep_roles, !lastMatch_snoc. simpl.
    destruct (paramIf usernameOnly params n), (paramIf isValidInviteCode params n); done.
Qed.

(** C1 (amended): in the generic pass over [validParams] every present
    value is tested against the invite-code pattern first and against
    the username pattern only when that fails; the invite-code
    candidate is the value of the LAST listed parameter matching the
    invite-code pattern, and the referrer candidate the value of the
    LAST listed parameter matching the username pattern but not the
    invite-code pattern.  A later parameter overwrites the role set by
    an earlier one. *)
Theorem genericPass_last_match_wins (search : list (string * string)) :
  genericPass (getUrlParams search) =
  (lastMatch usernameOnly (getUrlParams search) validParams,
   lastMatch isValidInviteCode (getUrlParams search) validParams).
Proof.
  unfold genericPass. rewrite genericLoop_roles. simpl.
  by destruct (lastMatch usernameOnly _ _), (lastMatch isValidInviteCode _ _).
Qed.

(** C1 as stated fails: with [?invite=bob&referrer=dave] the first
    value matching the username pattern is [bob], yet the generic pass
    ends with [dave]; with [?ref=alice1] the value matches the
    username pattern but takes the invite-code role only. *)
Lemma genericPass_first_match_fails :
  genericPass (getUrlParams [("invite", "bob"); ("referrer", "dave")])
    = (Some "dave", None)
  /\ genericPass_firstMatch (getUrlParams [("invite", "bob"); ("referrer", "dave")])
    = (Some "bob", None)
  /\ genericPass (getUrlParams [("ref", "alice1")]) = (None, Some "alice1")
  /\ genericPass_firstMatch (getUrlParams [("ref", "alice1")])
    = (Some "alice1", Some "alice1").
Proof. repeat split; vm_compute; reflexivity. Qed.




(** *** Persistence: [saveReferralData] then [loadReferralData] *)

Lemma allChars_impl (p q : ascii -> bool) s :
  (forall c, p c = true -> q c = true) ->
  Js.allChars p s = true -> Js.allChars q s = true.
Proof.
  intros Hpq. induction s as [|c s IH]; simpl; [done|].
  rewrite !andb_true_iff. intros [Hc Hs]. split; [by apply Hpq | by apply IH].
Qed.

Lemma isWord_notBar c : Js.isWord c = true -> notBar c = true.
Proof.
  destruct c as [[] [] [] [] [] [] [] []]; vm_compute; congruence.
Qed.

Lemma isAlnum_isWord c : Js.isAlnum c = true -> Js.isWord c = true.
Proof. unfold Js.isWord. intros ->. done. Qed.

Lemma matchClass_truthy p lo hi s :
  (0 < lo)%nat -> Js.matchClass p lo hi s = true -> Js.truthy s = true.
Proof.
  unfold Js.matchClass. rewrite !andb_true_iff. intros Hlo [[_ Hlen] _].
  apply Nat.leb_le in Hlen. destruct s; simpl in *; [lia|done].
Qed.

Lemma username_cookieSafe s : isValidUsername s = true -> cookieSafe (Some s) = true.
Proof.
  intros H. simpl. apply andb_true_iff. split.
  - eapply matchClass_truthy; [|exact H]. lia.
  - unfold isValidUsername, Js.matchClass in H.
    rewrite !andb_true_iff in H. destruct H as [[H _] _].
    eapply allChars_impl; [apply isWord_notBar | exact H].
Qed.

Lemma inviteCode_cookieSafe s : isValidInviteCode s = true -> cookieSafe (Some s) = true.
Proof.
  intros H. simpl. apply andb_true_iff. split.
  - eapply matchClass_truthy; [|exact H]. lia.
  - unfold isValidInviteCode, Js.matchClass in H.
    rewrite !andb_true_iff in H. destruct H as [[H _] _].
    eapply allChars_impl; [|exact H].
    intros c Hc. by apply isWord_notBar, isAlnum_isWord.
Qed.

Lemma split_no_bar s : Js.allChars notBar s = true -> Js.split "|"%char s = [s].
Proof.
  induction s as [|c s IH]; simpl; [done|].
  rewrite andb_true_iff. intros [Hc Hs]. unfold notBar in Hc.
  destruct (Ascii.eqb c "|") eqn:E; [done|]. by rewrite IH.
Qed.

Lemma split_bar_app r c :
  Js.allChars notBar r = true ->
  Js.split "|"%char (r ++ "|" ++ c) = r :: Js.split "|"%char c.
Proof.
  induction r as [|x r IH]; simpl; [done|].
  rewrite andb_true_iff. intros [Hx Hr]. unfold notBar in Hx.
  destruct (Ascii.eqb x "|") eqn:E; [done|]. by rewrite IH.
Qed.

Lemma someNonNull_false u : someNonNull u = false -> u = nullUtm.
Proof.
  destruct u as [[?|] [?|] [?|] [?|] [?|]]; simpl; intros; done.
Qed.

Lemma cookieSafe_inv v :
  cookieSafe v = true ->
  exists s, v = Some s /\ Js.truthy s = true /\ Js.allChars notBar s = true.
Proof.
  destruct v as [s|]; simpl; [|done].
  rewrite andb_true_iff. intros [? ?]. eauto.
Qed.




(** C10: saving a state whose referrer is null writes the cookie text
    [null|<inviteCode>]; a later load that misses the primary store
    and reads that cookie returns the referrer [null] as a non-empty
    string, which is neither null nor the default referrer. *)
Theorem null_referrer_saved_as_text (st : Storage) (data : ReferralState)
    (now : string) :
  referrer data = None ->
  cookieRef (saveReferralData st data) = Some ("null|" ++ Js.toStr (inviteCode data))
  /\ forall st',
       primaryLookup st' = None ->
       cookieRef st' = cookieRef (saveReferralData st data) ->
       exists loaded,
         loadReferralData st' now = Some loaded
         /\ referrer loaded = Some "null"
         /\ Js.truthyO (referrer loaded) = true
         /\ referrer loaded <> None
         /\ referrer loaded <> Some defaultReferrer.
Proof.
  intros Hr. unfold saveReferralData; simpl. rewrite Hr. simpl.
  split; [done|]. intros st' Hp Hc.
  unfold loadReferralData. rewrite Hp, Hc. simpl.
  eexists. split; [reflexivity|]. simpl. done.
Qed.

(** A state with a null referrer, saved while [localStorage] is
    unusable and loaded back. *)
Lemma null_referrer_saved_as_text_witness :
  let data := mkReferralState None (Some "zyDK65") "url_param" "t1" None nullUtm in
  let st := saveReferralData (emptyStorage false) data in
  cookieRef st = Some "null|zyDK65"
  /\ exists loaded,
       loadReferralData st "t2" = Some loaded /\ referrer loaded = Some "null".
Proof.
  intros data st.
  destruct (null_referrer_saved_as_text (emptyStorage false) data "t2" eq_refl)
    as [Hc Hl].
  split; [exact Hc|].
  destruct (Hl st eq_refl eq_refl) as (loaded & H1 & H2 & _).
  exists loaded. auto.
Defined.

(** *** The link rewriter *)

Lemma isName_true name kv : isName name kv = true <-> kv.1 = name.
Proof. unfold isName. apply String.eqb_eq. Qed.

Lemma isName_false name kv : isName name kv = false <-> kv.1 <> name.
Proof. unfold isName. apply String.eqb_neq. Qed.

Lemma sp_get_set_eq name value q : sp_get name (sp_set name value q) = Some value.
Proof.
  unfold sp_get. induction q as [|kv q IH]; simpl.
  - unfold isName. simpl. by rewrite String.eqb_refl.
  - destruct (isName name kv) eqn:E; simpl.
    + unfold isName at 1. simpl. by rewrite String.eqb_refl.
    + by rewrite E.
Qed.

Lemma find_filter_other name k (q : list (string * string)) :
  k <> name ->
  find (isName k) (List.filter (fun p => negb (isName name p)) q) = find (isName k) q.
Proof.
  intros Hne. induction q as [|kv q IH]; simpl; [done|].
  destruct (isName name kv) eqn:E; simpl.
  - destruct (isName k kv) eqn:E'; [|done].
    apply isName_true in E, E'. congruence.
  - by rewrite IH.
Qed.

Lemma find_set_other name value k q :
  k <> name -> find (isName k) (sp_set name value q) = find (isName k) q.
Proof.
  intros Hne. induction q as [|kv q IH]; simpl.
  - destruct (isName k (name, value)) eqn:E; [|done].
    apply isName_true in E. simpl in E. congruence.
  - destruct (isName name kv) eqn:E; simpl.
    + destruct (isName k kv) eqn:E'.
      * apply isName_true in E, E'. congruence.
      * destruct (isName k (name, value)) eqn:E''.
        { apply isName_true in E''. simpl in E''. congruence. }
        by apply find_filter_other.
    + by rewrite IH.
Qed.

Lemma sp_get_set_other name value k q :
  k <> name -> sp_get k (sp_set name value q) = sp_get k q.
Proof. intros Hne. unfold sp_get. by rewrite find_set_other. Qed.

Lemma sp_has_find name q : sp_has name q = bool_decide (is_Some (find (isName name) q)).
Proof.
  unfold sp_has. induction q as [|kv q IH]; simpl; [done|].
  by destruct (isName name kv).
Qed.

Lemma sp_has_get name q : sp_has name q = bool_decide (is_Some (sp_get name q)).
Proof.
  rewrite sp_has_find. unfold sp_get. apply bool_decide_ext.
  by rewrite fmap_is_Some.
Qed.

Lemma sp_has_set_other name value k q :
  k <> name -> sp_has k (sp_set name value q) = sp_has k q.
Proof. intros Hne. by rewrite !sp_has_find, find_set_other. Qed.

(** [set] leaves the pairs of every other name as they are, in order. *)
Lemma filter_set_keep (keep : string * string -> bool) name value q :
  (forall v, keep (name, v) = false) ->
  (forall kv, kv.1 = name -> keep kv = false) ->
  List.filter keep (sp_set name value q) = List.filter keep q.
Proof.
  intros Hk Hk'. induction q as [|kv q IH]; simpl.
  - by rewrite Hk.
  - destruct (isName name kv) eqn:E; simpl.
    + rewrite Hk, (Hk' kv) by (by apply isName_true).
      clear IH. induction q as [|kv' q IH]; simpl; [done|].
      destruct (isName name kv') eqn:E'; simpl.
      * by rewrite (Hk' kv') by (by apply isName_true).
      * by rewrite IH.
    + by rewrite IH.
Qed.

Lemma otherParam_name name v :
  In name attributionNames -> otherParam (name, v) = false.
Proof.
  unfold otherParam. intros Hin. apply negb_false_iff, existsb_exists.
  exists name. split; [done|]. simpl. apply String.eqb_refl.
Qed.

Lemma otherParam_set name value q :
  In name attributionNames ->
  List.filter otherParam (sp_set name value q) = List.filter otherParam q.
Proof.
  intros Hin. apply filter_set_keep.
  - intros v. by apply otherParam_name.
  - intros [k v] Hk. simpl in Hk. subst k. by apply otherParam_name.
Qed.

Lemma rewriteParams_others data q :
  List.filter otherParam (rewriteParams data q) = List.filter otherParam q.
Proof.
  unfold rewriteParams.
  repeat match goal with
         | |- context [if ?b then _ else _] => destruct b
         end;
    rewrite ?otherParam_set; simpl; auto.
Qed.

Lemma rewriteParams_recomId data q :
  sp_get "recomId" (rewriteParams data q) = Some (Js.toStr (inviteCode data)).
Proof.
  unfold rewriteParams.
  repeat match goal with
         | |- context [if ?b then _ else _] => destruct b
         end;
    rewrite ?sp_get_set_other by done; apply sp_get_set_eq.
Qed.

Lemma rewriteParams_referrer data q :
  sp_get "referrer" (rewriteParams data q)
  = Some (default (Js.toStr (referrer data)) (sp_get "referrer" q)).
Proof.
  unfold rewriteParams.
  rewrite (sp_has_set_other "recomId" _ "referrer") by done.
  assert (Hsrc : forall q', sp_get "referrer"
            (if sp_has "source" q' then q' else sp_set "source" (source data) q')
            = sp_get "referrer" q').
  { intros q'. destruct (sp_has "source" q'); [done|]. by rewrite sp_get_set_other. }
  rewrite Hsrc. rewrite sp_has_get.
  destruct (sp_get "referrer" q) as [v|] eqn:E.
  - rewrite bool_decide_eq_true_2 by eauto.
    rewrite sp_get_set_other by done. by rewrite E.
  - rewrite bool_decide_eq_false_2 by (by intros [? ?]).
    by rewrite sp_get_set_eq.
Qed.

Lemma rewriteParams_source data q :
  sp_get "source" (rewriteParams data q)
  = Some (default (source data) (sp_get "source" q)).
Proof.
  unfold rewriteParams.
  set (q1 := sp_set "recomId" _ q).
  set (q2 := if sp_has "referrer" q1 then q1 else _).
  assert (H2 : sp_get "source" q2 = sp_get "source" q).
  { subst q2 q1. destruct (sp_has "referrer" _);
      rewrite ?sp_get_set_other by done; done. }
  rewrite sp_has_get. rewrite H2.
  destruct (sp_get "source" q) as [v|] eqn:E.
  - rewrite bool_decide_eq_true_2 by eauto. rewrite H2; by rewrite ?E.
  - rewrite bool_decide_eq_false_2 by (by intros [? ?]).
    by rewrite sp_get_set_eq.
Qed.

Lemma append_cons x (a b : string) : String x a ++ b = String x (a ++ b).
Proof. reflexivity. Qed.

Lemma append_assoc (a b c : string) : (a ++ b) ++ c = a ++ b ++ c.
Proof.
  induction a as [|x a IH]; [done|]. rewrite !append_cons. by f_equal.
Qed.

Lemma prefix_spec n h : String.prefix n h = true <-> exists b, h = n ++ b.
Proof.
  revert h. induction n as [|x n IH]; intros h.
  - split; [intros _; by exists h | by destruct h].
  - destruct h as [|y h]; simpl; [split; [done | by intros [? ?]]|].
    destruct (ascii_dec x y) as [->|Hne].
    + rewrite IH. split; intros [b Hb]; exists b;
        rewrite append_cons in *; congruence.
    + split; [done|]. intros [b Hb]. rewrite append_cons in Hb. congruence.
Qed.

Lemma includes_nil n : Js.includes "" n = String.prefix n "" || false.
Proof. reflexivity. Qed.

Lemma includes_cons y h n :
  Js.includes (String y h) n = String.prefix n (String y h) || Js.includes h n.
Proof. reflexivity. Qed.

Lemma includes_spec h n : Js.includes h n = true <-> exists a b, h = a ++ n ++ b.
Proof.
  induction h as [|y h IH].
  - rewrite includes_nil, orb_false_r, prefix_spec. split.
    + intros [b Hb]. by exists "", b.
    + intros (a & b & Hab). destruct a; [by exists b|done].
  - rewrite includes_cons, orb_true_iff, prefix_spec, IH. split.
    + intros [[b Hb] | (a & b & Hab)].
      * by exists "", b.
      * exists (String y a), b. rewrite append_cons. by rewrite Hab.
    + intros (a & b & Hab). destruct a as [|x a].
      * left. by exists b.
      * right. exists a, b. rewrite append_cons in Hab. congruence.
Qed.

Lemma includes_trans h u n :
  Js.includes h u = true -> Js.includes u n = true -> Js.includes h n = true.
Proof.
  rewrite !includes_spec. intros (a & b & ->) (a' & b' & ->).
  exists (a ++ a'), (b' ++ b). by rewrite !append_assoc.
Qed.

(** A link that names a registration URL is among the selected ones. *)
Lemma registration_selected h :
  isRegistrationHref h = true -> selected (Some h) = true.
Proof.
  unfold isRegistrationHref. rewrite andb_true_iff, existsb_exists.
  intros [_ (u & Hu & Hin)]. simpl.
  apply (includes_trans h u); [done|].
  unfold registrationUrls in Hu. simpl in Hu.
  destruct Hu as [<-|[<-|[<-|[]]]]; vm_compute; reflexivity.
Qed.

(** A link written as an [https] URL on a registration domain names a
    registration URL. *)
Lemma untilDelimiter_prefix t : exists rest, t = untilDelimiter t ++ rest.
Proof.
  induction t as [|c t [rest IH]]; simpl; [by exists ""|].
  destruct (isDelimiter c).
  - by exists (String c t).
  - exists rest. rewrite append_cons. by rewrite <- IH.
Qed.

Lemma registration_host_href h :
  String.prefix "https://" h = true ->
  targetsRegistrationHost h = true ->
  isRegistrationHref h = true.
Proof.
  rewrite prefix_spec. intros [t ->]. unfold targetsRegistrationHost, targetHost.
  change (afterScheme ("https://" ++ t)) with (Some t). simpl.
  destruct (untilDelimiter_prefix t) as [rest Ht].
  rewrite !orb_true_iff, !String.eqb_eq. intros Hhost.
  unfold isRegistrationHref. apply andb_true_iff. split; [done|].
  apply existsb_exists.
  exists ("https://" ++ untilDelimiter t). split.
  - destruct Hhost as [-> | [-> | [-> | Hf]]]; [| | |discriminate Hf];
      vm_compute; auto.
  - apply includes_spec. exists "", rest. rewrite append_assoc. simpl.
    by rewrite <- Ht.
Qed.

Section LinkLoop.

Variable parseURL : string -> option URL.
Variable serializeURL : URL -> string.
Variable data : ReferralState.

Lemma rewriteLink_returns href :
  (forall h, href = Some h -> isRegistrationHref h = true -> is_Some (parseURL h)) ->
  is_Some (rewriteLink parseURL serializeURL data href).
Proof.
  intros Hp. destruct href as [h|]; simpl; [|eauto].
  destruct (isRegistrationHref h) eqn:E; [|eauto].
  destruct (Hp h eq_refl E) as [url ->]. eauto.
Qed.

(** The link at position [i] after the first loop, when no link before
    it stops the loop. *)
Lemma forEachLink_lookup anchors i href href' :
  anchors !! i = Some href ->
  parsesBefore parseURL anchors i ->
  rewriteLink parseURL serializeURL data href = Some href' ->
  (forEachLink parseURL serializeURL data anchors).1 !! i
  = Some (if selected href then href' else href).
Proof.
  revert i. induction anchors as [|x anchors IH]; intros i Hi Hp Hr; [done|].
  destruct i as [|i].
  - simpl in Hi. injection Hi as ->. simpl.
    destruct (selected href); [by rewrite Hr | done].
  - simpl in Hi.
    assert (Hp' : parsesBefore parseURL anchors i).
    { intros j h Hj Hjh. apply (Hp (S j) h); [lia | done]. }
    specialize (IH i Hi Hp' Hr).
    destruct (rewriteLink_returns x) as [x' Hx].
    { intros h -> Hreg. apply (Hp 0%nat h); [lia | done | done]. }
    simpl. rewrite Hx. by destruct (selected x).
Qed.

(** The loop changes no position beyond the list, and the call keeps
    the links the loop leaves. *)
Lemma updateRegistrationLinks_links anchors onclicks :
  (updateRegistrationLinks parseURL serializeURL data anchors onclicks).1.1
  = (forEachLink parseURL serializeURL data anchors).1.
Proof.
  unfold updateRegistrationLinks.
  by destruct (forEachLink parseURL serializeURL data anchors).2.
Qed.

End LinkLoop.

(** C8 (amended): for every link of the page written as an [https]
    URL whose target host is on the allow-list of registration domains
    (the rewriter selects links by the text of their [href], which
    must contain a configured registration URL), when the URL parser
    accepts it and every registration link before it on the page, the
    link rewriter writes back the same URL with

    - [recomId] set to the invite code, overwriting any previous value;
    - [referrer] and [source] added only when the link does not carry
      them yet: a value already present is kept, not overwritten;
    - every pair of another name unchanged, in the same order. *)
Theorem link_rewrite_params (parseURL : string -> option URL)
    (serializeURL : URL -> string) (data : ReferralState)
    (anchors onclicks : list (option string)) (i : nat) (h : string) (url : URL) :
  anchors !! i = Some (Some h) ->
  String.prefix "https://" h = true ->
  targetsRegistrationHost h = true ->
  parseURL h = Some url ->
  parsesBefore parseURL anchors i ->
  let q := searchParams url in
  let url' := rewrittenURL data url in
  (updateRegistrationLinks parseURL serializeURL data anchors onclicks).1.1 !! i
    = Some (Some (serializeURL url'))
  /\ url_base url' = url_base url
  /\ url_hash url' = url_hash url
  /\ sp_get "recomId" (searchParams url') = Some (Js.toStr (inviteCode data))
  /\ sp_get "referrer" (searchParams url')
     = Some (default (Js.toStr (referrer data)) (sp_get "referrer" q))
  /\ sp_get "source" (searchParams url')
     = Some (default (source data) (sp_get "source" q))
  /\ List.filter otherParam (searchParams url') = List.filter otherParam q.
Proof.
  intros Hi Hs Hhost Hparse Hbefore q url'. subst q url'.
  pose proof (registration_host_href h Hs Hhost) as Hreg.
  repeat split.
  - rewrite updateRegistrationLinks_links.
    rewrite (forEachLink_lookup parseURL serializeURL data anchors i (Some h)
               (Some (serializeURL (rewrittenURL data url)))); [| done | done |].
    + by rewrite (registration_selected h Hreg).
    + simpl. by rewrite Hreg, Hparse.
  - apply rewriteParams_recomId.
  - apply rewriteParams_referrer.
  - apply rewriteParams_source.
  - apply rewriteParams_others.
Qed.

(** A registration link that carries another parameter and no
    attribution yet. *)
Lemma link_rewrite_params_witness :
  let data := mkReferralState (Some "bob") (Some "zyDK65") "url_param" "t1" None nullUtm in
  let anchors := [Some "/about"; Some "https://unilive.io/register?lang=en"] in
  (updateRegistrationLinks plainParse plainSerialize data anchors []).1.1 !! 1%nat
    = Some (Some "https://unilive.io/register?lang=en&recomId=zyDK65&referrer=bob&source=url_param").
Proof.
  intros data anchors.
  destruct (link_rewrite_params plainParse plainSerialize data anchors [] 1
              "https://unilive.io/register?lang=en"
              (mkURL "https://unilive.io/register" [("lang", "en")] "")
              eq_refl
              ltac:(vm_compute; reflexivity)
              ltac:(vm_compute; reflexivity)
              ltac:(vm_compute; reflexivity)) as [H _].
  { intros j h Hj Hjh Hreg. destruct j as [|j]; [|lia].
    simpl in Hjh. injection Hjh as <-. vm_compute in Hreg. discriminate. }
  rewrite H. vm_compute. reflexivity.
Defined.

(** C8 as stated fails.  A registration link that already carries
    [referrer] and [source] keeps them, and only [recomId] is
    overwritten.  A link to a registration domain that is not written
    with one of the configured URLs (here over [http]) is left as it
    is.  A registration link that comes after one the URL parser
    rejects (here for its port) is left as it is: the loop has ended. *)
Lemma link_rewrite_keeps_referrer :
  let data := mkReferralState (Some "bob") (Some "zyDK65") "url_param" "t1" None nullUtm in
  let href := "https://unilive.io/register?referrer=dave&source=mail&recomId=old" in
  let plain := "http://unilive.io/register?lang=en" in
  let broken := "https://unilive.io:99999999/join" in
  (updateRegistrationLinks plainParse plainSerialize data [Some href; Some plain] []).1.1
    = [Some "https://unilive.io/register?referrer=dave&source=mail&recomId=zyDK65";
       Some plain]
  /\ targetsRegistrationHost href = true
  /\ targetsRegistrationHost plain = true
  /\ Js.toStr (referrer data) = "bob"
  /\ source data = "url_param"
  /\ updateRegistrationLinks plainParse plainSerialize data [Some broken; Some href] []
     = ([Some broken; Some href], [], false).
Proof. vm_compute. auto 10. Qed.

(* ===================================================================== *)
(** ** Properties of the event pipeline                                   *)
(* ===================================================================== *)

Section PipelineFacts.

Import Tracker.

Variable cfg : Config.

(** What [sendToBackend] touches: it issues one call and puts the
    request in flight, or does nothing. *)
Lemma sendToBackend_cases s req :
  sendToBackend cfg s req = s
  \/ sendToBackend cfg s req =
       mkState (maxRetries s) (recordId s) (clicks s) (inflight s ++ [req]) (timers s)
         (network s ++ [callOf s req]) (scheduled s).
Proof.
  unfold sendToBackend.
  destruct (configured cfg); simpl; [|by left].
  destruct (knownBackend cfg); simpl; [by right | by left].
Qed.

Lemma sendToBackend_fixed s req :
  let s' := sendToBackend cfg s req in
  maxRetries s' = maxRetries s /\ recordId s' = recordId s
  /\ timers s' = timers s /\ scheduled s' = scheduled s /\ clicks s' = clicks s.
Proof. destruct (sendToBackend_cases s req) as [-> | ->]; simpl; auto. Qed.

(** Every step leaves the counter and the timers alone, or schedules
    one retry after a failure seen with a positive counter, or runs
    one retry callback, which costs one unit of the counter. *)
Lemma step_retry_cases s ev :
  let s' := step cfg s ev in
  (isRetry s ev = false /\ maxRetries s' = maxRetries s /\ timers s' = timers s
   /\ scheduled s' = scheduled s)
  \/ (isRetry s ev = false /\ maxRetries s' = maxRetries s /\ (0 < maxRetries s)%Z
      /\ (exists req, timers s' = (timers s ++ [(retryDelay cfg, req)])%list)
      /\ scheduled s' = (scheduled s ++ [retryDelay cfg])%list)
  \/ (isRetry s ev = true /\ maxRetries s' = (maxRetries s - 1)%Z
      /\ (exists i, timers s' = delete i (timers s) /\ is_Some (timers s !! i))
      /\ scheduled s' = scheduled s).
Proof.
  destruct ev; simpl.
  - left. unfold trackPageView. destruct (trackPageViews cfg); simpl; [|done].
    by destruct (sendToBackend_fixed s (mkRequest PageViewData false)) as (?&?&?&?&?).
  - left. unfold updateTimeOnPage. destruct (Js.truthyO (recordId s)); simpl; [|done].
    by destruct (sendToBackend_fixed s
                   (mkRequest (TimeOnPageData timeOnPage (clicks s)) true)) as (?&?&?&?&?).
  - left. unfold trackClick. destruct (trackClicks cfg); simpl; [|done].
    destruct (isCtaButton && Js.truthyO (recordId s)); simpl; [|done].
    match goal with
    | |- context [sendToBackend cfg ?st ?rq] =>
        by destruct (sendToBackend_fixed st rq) as (?&?&?&?&?)
    end.
  - left. unfold trackRegistration.
    destruct (negb (trackRegistrations cfg) || negb (Js.truthyO (recordId s)));
      simpl; [done|].
    by destruct (sendToBackend_fixed s (mkRequest RegisteredData true)) as (?&?&?&?&?).
  - left. unfold sendFinalUpdate.
    destruct (Js.truthyO (recordId s)); simpl; [|done].
    destruct (endpointUrl cfg); [|done]. by destruct hasBeacon.
  - left. unfold trackEvent.
    by destruct (sendToBackend_fixed s
                   (mkRequest (EventData (recordId s) eventType) false)) as (?&?&?&?&?).
  - left. unfold updateField. destruct (Js.truthyO (recordId s)); simpl; [|done].
    by destruct (sendToBackend_fixed s (mkRequest (FieldData field value) true))
      as (?&?&?&?&?).
  - destruct (inflight s !! i) as [req|]; [|by left].
    unfold afterFetch. simpl.
    destruct (settle cfg (req_isUpdate req) r) as [id|].
    + left. by destruct (Js.truthyO id && negb (Js.truthyO (recordId s))).
    + destruct (0 <? maxRetries s)%Z eqn:E; [|by left].
      right; left. simpl. apply Z.ltb_lt in E. eauto 10.
  - destruct (timers s !! i) as [[d req]|] eqn:E; [|by left].
    right; right. unfold retryCallback.
    match goal with
    | |- context [sendToBackend cfg ?st ?rq] =>
        destruct (sendToBackend_fixed st rq) as (-> & _ & -> & -> & _)
    end.
    simpl. repeat split; eauto.
Qed.

Lemma run_app s evs evs' :
  run cfg s (evs ++ evs') = run cfg (run cfg s evs) evs'.
Proof. unfold run. apply fold_left_app. Qed.

Lemma run_cons s ev evs : run cfg s (ev :: evs) = run cfg (step cfg s ev) evs.
Proof. reflexivity. Qed.

(** Every delay handed to [setTimeout] is [retryDelay]. *)
Lemma scheduled_fixed s evs :
  Forall (eq (retryDelay cfg)) (scheduled s) ->
  Forall (eq (retryDelay cfg)) (scheduled (run cfg s evs)).
Proof.
  revert s. induction evs as [|ev evs IH]; intros s Hs; [done|].
  rewrite run_cons. apply IH.
  destruct (step_retry_cases s ev) as [(_&_&_&->)|[(_&_&_&_&->)|(_&_&_&->)]]; auto.
  apply Forall_app. split; [done|]. by constructor.
Qed.

(** The settlement of a request issues no call: a retry is left to a timer. *)
Lemma settle_no_call s i r : network (step cfg s (EFetchSettled i r)) = network s.
Proof.
  simpl. destruct (inflight s !! i) as [req|]; [|done].
  unfold afterFetch. simpl.
  destruct (settle cfg (req_isUpdate req) r) as [id|].
  - by destruct (Js.truthyO id && negb (Js.truthyO (recordId s))).
  - by destruct (0 <? maxRetries s)%Z.
Qed.

Lemma repeat_snoc {A : Type} (x : A) m : (repeat x m ++ [x])%list = repeat x (S m).
Proof. induction m as [|m IH]; simpl; [done|]. by rewrite IH. Qed.

Lemma retry_fires m rid cl d req net sch :
  configured cfg = true -> knownBackend cfg = true ->
  step cfg (mkState m rid cl [] [(d, req)] net sch) (ETimerFired 0) =
  mkState (m - 1) rid cl [req] []
    (net ++ [callOf (mkState m rid cl [] [] net sch) req]) sch.
Proof.
  intros Hc Hk. simpl. unfold retryCallback, sendToBackend. by rewrite Hc, Hk.
Qed.

Lemma attempt_fails m rid cl req net sch :
  step cfg (mkState m rid cl [req] [] net sch) (EFetchSettled 0 NetworkError) =
  if (0 <? m)%Z
  then mkState m rid cl [] [(retryDelay cfg, req)] net (sch ++ [retryDelay cfg])
  else mkState m rid cl [] [] net sch.
Proof. simpl. unfold afterFetch. simpl. by destruct (0 <? m)%Z. Qed.

(** The state while a request that always fails is retried: after the
    failure of attempt [k] (counting from 0), the request having been
    issued in a state [s0] with nothing pending. *)
Lemma failingChain_state (n k : nat) s0 req :
  configured cfg = true -> knownBackend cfg = true ->
  inflight s0 = [] -> timers s0 = [] -> maxRetries s0 = Z.of_nat n ->
  (k <= n)%nat ->
  run cfg (sendToBackend cfg s0 req) (failingChain k) =
  mkState (Z.of_nat n - Z.of_nat k) (recordId s0) (clicks s0) []
    (if (k <? n)%nat then [(retryDelay cfg, req)] else [])
    (network s0 ++ repeat (callOf s0 req) (S k))
    (scheduled s0 ++ repeat (retryDelay cfg) (if (k <? n)%nat then S k else k)).
Proof.
  intros Hc Hk Hi Ht Hn. destruct s0 as [mr rid cl inf tm net sch].
  simpl in Hi, Ht, Hn. subst inf tm mr.
  set (call := callOf (mkState (Z.of_nat n) rid cl [] [] net sch) req).
  induction k as [|k IH]; intros Hle.
  - unfold sendToBackend. rewrite Hc, Hk.
    cbn [negb run fold_left failingChain maxRetries recordId clicks inflight timers
         network scheduled app].
    fold call. rewrite attempt_fails.
    destruct n as [|n]; cbn [Z.of_nat Z.ltb Z.compare Nat.ltb Nat.leb repeat].
    + by rewrite app_nil_r.
    + by rewrite Z.sub_0_r.
  - assert (Hlt : (k <? n)%nat = true) by (apply Nat.ltb_lt; lia).
    change (failingChain (S k))
      with (failingChain k ++ [ETimerFired 0; EFetchSettled 0 NetworkError])%list.
    rewrite run_app, IH by lia. rewrite Hlt.
    cbn [run fold_left recordId clicks network scheduled].
    rewrite retry_fires by done.
    change (callOf _ req) with call.
    rewrite attempt_fails.
    replace (Z.of_nat n - Z.of_nat k - 1)%Z with (Z.of_nat n - Z.of_nat (S k))%Z by lia.
    rewrite <- !app_assoc, !repeat_snoc.
    destruct (S k <? n)%nat eqn:E.
    + apply Nat.ltb_lt in E.
      assert (H1 : (0 <? Z.of_nat n - Z.of_nat (S k))%Z = true) by (apply Z.ltb_lt; lia).
      by rewrite H1.
    + apply Nat.ltb_ge in E.
      assert (H1 : (0 <? Z.of_nat n - Z.of_nat (S k))%Z = false) by (apply Z.ltb_ge; lia).
      by rewrite H1.
Qed.


(** *** The shared retry counter *)

Lemma maxRetries_run s evs :
  maxRetries (run cfg s evs) = (maxRetries s - Z.of_nat (retries cfg s evs))%Z.
Proof.
  revert s. induction evs as [|ev evs IH]; intros s.
  - simpl. lia.
  - rewrite run_cons, IH. simpl retries.
    destruct (step_retry_cases s ev) as [(->&->&_)|[(->&->&_)|(->&->&_)]]; lia.
Qed.

Lemma sequential_bound s evs :
  (Z.of_nat (length (timers s)) <= maxRetries s)%Z ->
  sequential cfg s evs = true ->
  (Z.of_nat (retries cfg s evs) <= maxRetries s)%Z.
Proof.
  revert s. induction evs as [|ev evs IH]; intros s Hinv Hseq.
  - simpl. lia.
  - simpl in Hseq. apply andb_true_iff in Hseq as [Hlen Hseq].
    apply Nat.leb_le in Hlen.
    assert (Hnext : (length (timers (step cfg s ev)) <= 1)%nat).
    { destruct evs; simpl in Hseq; apply andb_true_iff in Hseq as [H _];
        by apply Nat.leb_le in H. }
    simpl retries.
    destruct (step_retry_cases s ev)
      as [(->&Hm&Ht&_)|[(->&Hm&Hpos&[req Ht]&_)|(->&Hm&(i&Ht&[x Hx])&_)]].
    + specialize (IH (step cfg s ev)). rewrite Hm, Ht in IH.
      specialize (IH Hinv Hseq). lia.
    + specialize (IH (step cfg s ev)). rewrite Hm in IH.
      rewrite Ht, length_app in Hnext. simpl in Hnext.
      rewrite Ht, length_app in IH. simpl in IH.
      assert (Z.of_nat (retries cfg (step cfg s ev) evs) <= maxRetries s)%Z
        by (apply IH; [lia | done]).
      lia.
    + specialize (IH (step cfg s ev)). rewrite Hm, Ht in IH.
      rewrite length_delete in IH by eauto.
      apply lookup_lt_Some in Hx.
      assert (Z.of_nat (retries cfg (step cfg s ev) evs) <= maxRetries s - 1)%Z
        by (apply IH; [lia | done]).
      lia.
Qed.

(** C9 (amended): the retry budget is the single mutable option
    [config.options.maxRetries], shared by every request of the page
    session.  Each retry of any request, create or update, decrements
    it for good, so the number of retries performed is the amount by
    which it has dropped.  A request that fails once the counter is
    zero or less is not retried, and the counter never grows.  The
    total number of retries stays within the initial [maxRetries] when
    at most one retry is pending at any time; the decrement happens
    when the timer fires, not when the retry is scheduled, so requests
    that fail while the counter is still positive are all retried. *)
Theorem retry_budget_shared :
  (0 <= initialMaxRetries cfg)%Z ->
  (forall s i x, timers s !! i = Some x ->
     maxRetries (step cfg s (ETimerFired i)) = (maxRetries s - 1)%Z)
  /\ (forall s evs,
        maxRetries (run cfg s evs) = (maxRetries s - Z.of_nat (retries cfg s evs))%Z)
  /\ (forall s i r, (maxRetries s <= 0)%Z ->
        timers (step cfg s (EFetchSettled i r)) = timers s
        /\ scheduled (step cfg s (EFetchSettled i r)) = scheduled s)
  /\ (forall evs, sequential cfg (init cfg) evs = true ->
        (Z.of_nat (retries cfg (init cfg) evs) <= initialMaxRetries cfg)%Z).
Proof.
  intros Hpos. split; [|split; [|split]].
  - intros s i x Hx.
    destruct (step_retry_cases s (ETimerFired i)) as [(H&_)|[(H&_)|(_&H&_)]];
      [| |exact H]; simpl in H; rewrite Hx in H; done.
  - apply maxRetries_run.
  - intros s i r Hle.
    destruct (step_retry_cases s (EFetchSettled i r))
      as [(_&_&Ht&Hs)|[(_&_&Hlt&_)|(H&_)]]; [done|lia|done].
  - intros evs Hseq. apply (sequential_bound (init cfg) evs); [simpl; lia|done].
Qed.

(** *** Updates wait for the record identifier *)

Lemma gated_ext s s' :
  recordId s' = recordId s -> inflight s' = inflight s ->
  timers s' = timers s -> network s' = network s ->
  gated s -> gated s'.
Proof.
  unfold gated, updatesCarryId, noUpdates. intros -> -> -> ->. done.
Qed.

Lemma gated_send s req :
  (req_isUpdate req = true -> Js.truthyO (recordId s) = true) ->
  gated s -> gated (sendToBackend cfg s req).
Proof.
  intros Hreq [Hc Hn].
  destruct (sendToBackend_cases s req) as [-> | ->]; [done|].
  split.
  - unfold updatesCarryId. simpl. apply Forall_app. split; [done|].
    constructor; [|done]. simpl. intros Hu. rewrite Hu, (Hreq Hu). simpl. by apply Hreq.
  - simpl. intros Hf. destruct (Hn Hf) as (Hi & Ht & Hnet).
    assert (Hr : req_isUpdate req = false).
    { destruct (req_isUpdate req); [|done]. rewrite Hreq in Hf; done. }
    unfold noUpdates. simpl. repeat split; [|done|].
    + apply Forall_app. split; [done|]. by constructor.
    + apply Forall_app. split; [done|]. by constructor.
Qed.

Lemma gated_step s ev : gated s -> gated (step cfg s ev).
Proof.
  intros Hg. destruct ev; simpl.
  - unfold trackPageView. destruct (trackPageViews cfg); simpl; [|done].
    by apply gated_send.
  - unfold updateTimeOnPage. destruct (Js.truthyO (recordId s)) eqn:E; simpl; [|done].
    by apply gated_send.
  - unfold trackClick. destruct (trackClicks cfg); simpl; [|done].
    destruct (Js.truthyO (recordId s)) eqn:E; rewrite ?andb_true_r, ?andb_false_r.
    + destruct isCtaButton.
      * apply gated_send; [done|]. by apply (gated_ext s).
      * by apply (gated_ext s).
    + by apply (gated_ext s).
  - unfold trackRegistration. destruct (Js.truthyO (recordId s)) eqn:E;
      rewrite ?orb_true_r, ?orb_false_r; simpl; [|done].
    destruct (trackRegistrations cfg); simpl; [|done]. by apply gated_send.
  - unfold sendFinalUpdate. destruct (Js.truthyO (recordId s)) eqn:E; simpl; [|done].
    destruct (endpointUrl cfg); [|done]. destruct hasBeacon; [|done].
    destruct Hg as [Hc Hn]. split.
    + unfold updatesCarryId. simpl. apply Forall_app. split; [done|].
      by constructor.
    + simpl. rewrite E. done.
  - unfold trackEvent. by apply gated_send.
  - unfold updateField. destruct (Js.truthyO (recordId s)) eqn:E; [|done].
    by apply gated_send.
  - destruct (inflight s !! i) as [req|] eqn:Ei; [|done].
    destruct Hg as [Hc Hn]. unfold afterFetch. simpl.
    destruct (settle cfg (req_isUpdate req) r) as [id|].
    + destruct (Js.truthyO id) eqn:Eid; simpl.
      * destruct (Js.truthyO (recordId s)) eqn:E; simpl.
        { split; [done|]. simpl. rewrite E. done. }
        split; [done|]. simpl. rewrite Eid. done.
      * split; [done|]. simpl. intros Hf. destruct (Hn Hf) as (H1 & H2 & H3).
        repeat split; [|done|done]. simpl. by apply Forall_delete.
    + assert (Hdel : Js.truthyO (recordId s) = false ->
                Forall (fun r => req_isUpdate r = false) (delete i (inflight s))).
      { intros Hf. destruct (Hn Hf) as (H1 & _). by apply Forall_delete. }
      destruct (0 <? maxRetries s)%Z; (split; [done|]); simpl; intros Hf;
        destruct (Hn Hf) as (H1 & H2 & H3); unfold noUpdates; simpl;
        (repeat split; [by apply Hdel| |done]); [|done].
      apply Forall_app. split; [done|]. constructor; [|done]. simpl.
      eapply (Forall_lookup_1 _ _ _ _ H1 Ei).
  - destruct (timers s !! i) as [[d req]|] eqn:Ei; [|done].
    unfold retryCallback. apply gated_send; simpl.
    + intros Hu. destruct (Js.truthyO (recordId s)) eqn:E; [done|].
      destruct Hg as [_ Hn]. destruct (Hn E) as (_ & H2 & _).
      pose proof (Forall_lookup_1 _ _ _ _ H2 Ei) as H. simpl in H. congruence.
    + destruct Hg as [Hc Hn]. split; [done|]. simpl. intros Hf.
      destruct (Hn Hf) as (H1 & H2 & H3). repeat split; [done| |done].
      simpl. by apply Forall_delete.
Qed.

Lemma gated_run s evs : gated s -> gated (run cfg s evs).
Proof.
  revert s. induction evs as [|ev evs IH]; intros s Hg; [done|].
  rewrite run_cons. by apply IH, gated_step.
Qed.

Lemma gated_init : gated (init cfg).
Proof. split; [constructor|]. intros _. repeat split; constructor. Qed.

(** The record identifier changes only when a request settles with a
    response that carries one. *)
Lemma recordId_step s ev :
  recordId (step cfg s ev) = recordId s
  \/ exists i req id,
       ev = EFetchSettled i (HttpOk (Some id))
       /\ inflight s !! i = Some req
       /\ recordId (step cfg s ev) = Some id.
Proof.
  destruct ev; simpl.
  - left. unfold trackPageView. destruct (trackPageViews cfg); simpl; [|done].
    by destruct (sendToBackend_fixed s (mkRequest PageViewData false)) as (?&?&?&?&?).
  - left. unfold updateTimeOnPage. destruct (Js.truthyO (recordId s)); simpl; [|done].
    by destruct (sendToBackend_fixed s
                   (mkRequest (TimeOnPageData timeOnPage (clicks s)) true)) as (?&?&?&?&?).
  - left. unfold trackClick. destruct (trackClicks cfg); simpl; [|done].
    destruct (isCtaButton && Js.truthyO (recordId s)); simpl; [|done].
    match goal with
    | |- context [sendToBackend cfg ?st ?rq] =>
        by destruct (sendToBackend_fixed st rq) as (?&?&?&?&?)
    end.
  - left. unfold trackRegistration.
    destruct (negb (trackRegistrations cfg) || negb (Js.truthyO (recordId s)));
      simpl; [done|].
    by destruct (sendToBackend_fixed s (mkRequest RegisteredData true)) as (?&?&?&?&?).
  - left. unfold sendFinalUpdate.
    destruct (Js.truthyO (recordId s)); simpl; [|done].
    destruct (endpointUrl cfg); [|done]. by destruct hasBeacon.
  - left. unfold trackEvent.
    by destruct (sendToBackend_fixed s
                   (mkRequest (EventData (recordId s) eventType) false)) as (?&?&?&?&?).
  - left. unfold updateField. destruct (Js.truthyO (recordId s)); simpl; [|done].
    by destruct (sendToBackend_fixed s (mkRequest (FieldData field value) true))
      as (?&?&?&?&?).
  - destruct (inflight s !! i) as [req|] eqn:Ei; [|by left].
    unfold afterFetch. simpl.
    destruct (settle cfg (req_isUpdate req) r) as [id|] eqn:Es.
    + destruct (Js.truthyO id) eqn:Eid; simpl; [|by left].
      destruct (Js.truthyO (recordId s)); simpl; [by left|].
      right. destruct id as [id|]; [|done].
      exists i, req, id. split; [|done]. f_equal.
      unfold settle in Es. destruct r; try done.
      * destruct (String.eqb (backend cfg) "supabase" && req_isUpdate req);
          congruence.
      * destruct (String.eqb (backend cfg) "supabase" && req_isUpdate req); done.
    + left. by destruct (0 <? maxRetries s)%Z.
  - left. destruct (timers s !! i) as [[d req]|]; [|done].
    unfold retryCallback.
    match goal with
    | |- context [sendToBackend cfg ?st ?rq] =>
        by destruct (sendToBackend_fixed st rq) as (?&?&?&?&?)
    end.
Qed.

(** An update path taken while no record identifier is known sends
    nothing and leaves nothing pending. *)
Lemma update_dropped s ev :
  Js.truthyO (recordId s) = false -> isUpdatePath ev = true ->
  network (step cfg s ev) = network s /\ inflight (step cfg s ev) = inflight s
  /\ timers (step cfg s ev) = timers s /\ scheduled (step cfg s ev) = scheduled s.
Proof.
  intros Hf Hu. destruct ev; try discriminate Hu; simpl.
  - unfold updateTimeOnPage. by rewrite Hf.
  - unfold trackClick. simpl. rewrite Hf, andb_false_r.
    by destruct (trackClicks cfg).
  - unfold trackRegistration. by rewrite Hf, orb_true_r.
  - unfold sendFinalUpdate. by rewrite Hf.
  - unfold updateField. by rewrite Hf.
Qed.

(** C4: no update is sent before a create call has completed and its
    record identifier has been captured.  Every update path
    (time on page, click, registration, [updateField], the final
    update) checks the identifier first; taken while it is null, the
    update is dropped: nothing is sent and nothing is queued.  Along
    every run, every update sent names a captured identifier, and the
    identifier is first captured when a request that is not an update
    settles with a response carrying it. *)
Theorem updates_wait_for_record_id :
  (forall s ev,
     Js.truthyO (recordId s) = false -> isUpdatePath ev = true ->
     network (step cfg s ev) = network s /\ inflight (step cfg s ev) = inflight s
     /\ timers (step cfg s ev) = timers s /\ scheduled (step cfg s ev) = scheduled s)
  /\ (forall evs,
        updatesCarryId (run cfg (init cfg) evs)
        /\ (Js.truthyO (recordId (run cfg (init cfg) evs)) = false ->
            noUpdates (run cfg (init cfg) evs)))
  /\ (forall evs ev,
        Js.truthyO (recordId (run cfg (init cfg) evs)) = false ->
        Js.truthyO (recordId (step cfg (run cfg (init cfg) evs) ev)) = true ->
        exists i req id,
          ev = EFetchSettled i (HttpOk (Some id))
          /\ inflight (run cfg (init cfg) evs) !! i = Some req
          /\ req_isUpdate req = false
          /\ recordId (step cfg (run cfg (init cfg) evs) ev) = Some id).
Proof.
  split; [apply update_dropped|]. split.
  - intros evs. apply gated_run, gated_init.
  - intros evs ev Hf Ht.
    destruct (recordId_step (run cfg (init cfg) evs) ev) as [E | (i & req & id & -> & Hi & Hid)].
    + rewrite E, Hf in Ht. done.
    + exists i, req, id. repeat split; try done.
      destruct (gated_run (init cfg) evs gated_init) as [_ Hn].
      destruct (Hn Hf) as (H1 & _).
      apply (Forall_lookup_1 _ _ _ _ H1 Hi).
Qed.

End PipelineFacts.

(* ===================================================================== *)
(** ** Properties of the milestone engine                                 *)
(* ===================================================================== *)

Section MilestoneFacts.

Import Webhooks.

(** The three ways a call of [checkMilestone] ends. *)
Lemma checkMilestone_cases s type value metadata now :
  let key := milestoneKey type value in
  (checkMilestone s type value metadata now = (s, true)
   /\ (is_Some (achievedMilestones s !! key) \/ isThreshold type value = false))
  \/ (achievedMilestones s !! key = None /\ isThreshold type value = true
      /\ storageWritable s = true
      /\ checkMilestone s type value metadata now =
         (mkState (<[key := now]> (achievedMilestones s))
                  (<[key := now]> (achievedMilestones s)) true
                  (dispatched s ++ [mkWebhook type value now metadata]), true))
  \/ (achievedMilestones s !! key = None /\ isThreshold type value = true
      /\ storageWritable s = false
      /\ checkMilestone s type value metadata now =
         (mkState (<[key := now]> (achievedMilestones s)) (persisted s) false
                  (dispatched s), false)).
Proof.
  intros key. unfold checkMilestone. fold key.
  destruct (achievedMilestones s !! key) as [t|] eqn:E; [left; eauto|].
  destruct (isThreshold type value) eqn:Et; [|left; eauto].
  destruct (storageWritable s) eqn:Ew; [right; left | right; right]; done.
Qed.

Lemma firesOnce_check old base s type value metadata now :
  firesOnce old base s ->
  firesOnce old base (checkMilestone s type value metadata now).1.
Proof.
  intros (Hb & Hp & new & Hd & Hnd & Hnew).
  destruct (checkMilestone_cases s type value metadata now)
    as [[-> _] | [(Hk & _ & _ & ->) | (Hk & _ & _ & ->)]]; simpl.
  - unfold firesOnce; eauto 10.
  - assert (Hins : achievedMilestones s ⊆
                   <[milestoneKey type value := now]> (achievedMilestones s))
      by (by apply insert_subseteq).
    split; [by repeat (etrans; [eassumption|])|]. split; [done|].
    exists (new ++ [mkWebhook type value now metadata])%list.
    split; [by rewrite Hd, app_assoc|]. split.
    + rewrite fmap_app. apply NoDup_app. split; [done|]. split.
      * intros k Hin Hin'. simpl in Hin'. apply list_elem_of_singleton in Hin'.
        apply list_elem_of_fmap in Hin as (w & -> & Hw).
        destruct (Hnew w Hw) as [_ [t Ht]].
        rewrite Hin' in Ht.
        change (webhookKey (mkWebhook type value now metadata))
          with (milestoneKey type value) in Ht.
        apply (lookup_weaken _ _ _ _ Ht) in Hp. congruence.
      * simpl. apply NoDup_singleton.
    + intros w Hw. apply elem_of_app in Hw as [Hw | Hw].
      * destruct (Hnew w Hw) as [H1 [t Ht]]. split; [done|].
        exists t. eapply lookup_weaken; [exact Ht|]. by etrans.
      * apply list_elem_of_singleton in Hw as ->. unfold webhookKey. simpl. split.
        { eapply lookup_weaken_None; [exact Hk|]. by etrans. }
        rewrite lookup_insert_eq. eauto.
  - split; [done|]. split.
    + etrans; [exact Hp|]. by apply insert_subseteq.
    + exists new. eauto.
Qed.

Lemma firesOnce_forEach old base type current stats now thresholds s :
  firesOnce old base s ->
  firesOnce old base (forEachThreshold s type current stats now thresholds).1.
Proof.
  revert s. induction thresholds as [|m rest IH]; intros s Hs; simpl; [done|].
  destruct (m <=? current)%Z; [|by apply IH].
  pose proof (firesOnce_check old base s type m stats now Hs) as Hc.
  destruct (checkMilestone s type m stats now) as [s' [|]]; simpl in *.
  - by apply IH.
  - done.
Qed.

Lemma firesOnce_step old base s ev :
  firesOnce old base s -> firesOnce old base (step s ev).
Proof.
  intros Hs. destruct ev as [type value metadata now|stats now|w|]; simpl.
  - by apply firesOnce_check.
  - unfold monitorTick. destruct stats as [stats|]; [|done].
    assert (H1 : firesOnce old base
              (match statIfTruthy stats "totalVisitors" with
               | Some v => forEachThreshold s "visitors" v stats now visitorsThresholds
               | None => (s, true)
               end).1).
    { destruct (statIfTruthy stats "totalVisitors"); [|done].
      by apply firesOnce_forEach. }
    destruct (match statIfTruthy stats "totalVisitors" with
              | Some v => forEachThreshold s "visitors" v stats now visitorsThresholds
              | None => (s, true)
              end) as [s1 [|]]; simpl in *; [|done].
    destruct (statIfTruthy stats "registrations") as [v|]; [|done].
    exact (firesOnce_forEach old base "registrations" v stats now
             registrationsThresholds s1 H1).
  - destruct Hs as (Hb & Hp & new & Hd & Hnd & Hnew). unfold firesOnce. simpl. eauto 10.
  - destruct Hs as (Hb & Hp & new & Hd & Hnd & Hnew). unfold firesOnce. simpl. eauto 10.
Qed.

Lemma firesOnce_run old base s evs :
  firesOnce old base s -> firesOnce old base (run s evs).
Proof.
  revert s. induction evs as [|ev evs IH]; intros s Hs; [done|].
  simpl. by apply IH, firesOnce_step.
Qed.

Lemma firesOnce_start s :
  persisted s ⊆ achievedMilestones s -> firesOnce (dispatched s) (persisted s) s.
Proof.
  intros Hp. split; [done|]. split; [done|]. exists []. rewrite app_nil_r.
  split; [done|]. split; [constructor|]. intros w Hw. by apply elem_of_nil in Hw.
Qed.

Lemma check_twice s type value metadata now metadata' now' :
  checkMilestone (checkMilestone s type value metadata now).1 type value metadata' now'
  = ((checkMilestone s type value metadata now).1, true).
Proof.
  destruct (checkMilestone_cases s type value metadata now)
    as [[-> H] | [(Hk & _ & _ & ->) | (Hk & _ & _ & ->)]]; simpl.
  - unfold checkMilestone. destruct H as [[t ->] | ->]; [done|].
    by destruct (achievedMilestones s !! milestoneKey type value).
  - unfold checkMilestone. simpl. by rewrite lookup_insert_eq.
  - unfold checkMilestone. simpl. by rewrite lookup_insert_eq.
Qed.

(** C5: the milestone check hands the webhook of a key
    [{type}_{threshold}] over at most once over the whole run.
    Calling the check twice in succession fires nothing the second
    time.  Along every run from the start of the script (checks,
    ticks, reloads, storage failing or not), the webhooks handed over
    have pairwise distinct keys, none of them recorded when the script
    started.  Once a key is in the persisted map, its entry keeps its
    value, in the store and in memory, and no webhook of that key is
    handed over. *)
Theorem milestone_fires_once :
  (forall s type value metadata now metadata' now',
     let s1 := (checkMilestone s type value metadata now).1 in
     let s2 := (checkMilestone s1 type value metadata' now').1 in
     s2 = s1)
  /\ (forall stored writable evs,
        let s := run (pageLoad stored writable) evs in
        NoDup (webhookKey <$> dispatched s)
        /\ forall w, w ∈ dispatched s ->
             stored !! webhookKey w = None
             /\ is_Some (persisted s !! webhookKey w))
  /\ (forall stored writable evs evs' k t,
        let s := run (pageLoad stored writable) evs in
        let s' := run s evs' in
        persisted s !! k = Some t ->
        persisted s' !! k = Some t
        /\ achievedMilestones s' !! k = Some t
        /\ exists new,
             dispatched s' = (dispatched s ++ new)%list
             /\ forall w, w ∈ new -> webhookKey w <> k).
Proof.
  split; [|split].
  - intros. subst s2 s1. by rewrite check_twice.
  - intros stored writable evs s.
    destruct (firesOnce_run [] stored (pageLoad stored writable) evs)
      as (_ & _ & new & Hd & Hnd & Hnew).
    { apply (firesOnce_start (pageLoad stored writable)). done. }
    fold s in Hd, Hnew. simpl in Hd. rewrite Hd. done.
  - intros stored writable evs evs' k t s s' Hk.
    assert (Hp : persisted s ⊆ achievedMilestones s).
    { destruct (firesOnce_run [] stored (pageLoad stored writable) evs) as (_ & H & _);
        [by apply (firesOnce_start (pageLoad stored writable))|done]. }
    destruct (firesOnce_run (dispatched s) (persisted s) s evs' (firesOnce_start s Hp))
      as (Hb & Hp' & new & Hd & _ & Hnew).
    fold s' in Hb, Hp', Hd, Hnew.
    assert (Hk' : persisted s' !! k = Some t) by (by eapply lookup_weaken).
    split; [done|]. split.
    + by eapply lookup_weaken.
    + exists new. split; [done|]. intros w Hw Heq.
      destruct (Hnew w Hw) as [Hnone _]. congruence.
Qed.

(** *** The tick of the monitor *)

Lemma due_cons type v m rest :
  due type (Some v) (m :: rest) =
  if (m <=? v)%Z then (type, m) :: due type (Some v) rest else due type (Some v) rest.
Proof. unfold due. simpl. by destruct (m <=? v)%Z. Qed.

Lemma fresh_cons s m l :
  fresh s (m :: l) =
  match achievedMilestones s !! keyOf m with
  | Some _ => fresh s l
  | None => m :: fresh s l
  end.
Proof. unfold fresh. simpl. by destruct (achievedMilestones s !! keyOf m). Qed.

Lemma fresh_ext s s' l :
  (forall m, m ∈ l -> achievedMilestones s' !! keyOf m = achievedMilestones s !! keyOf m) ->
  fresh s' l = fresh s l.
Proof.
  induction l as [|m l IH]; intros H; [done|].
  rewrite !fresh_cons, H by (by left).
  rewrite IH; [done|]. intros m' Hm'. apply H. by right.
Qed.

Lemma fresh_app s l l' : fresh s (l ++ l') = (fresh s l ++ fresh s l')%list.
Proof. unfold fresh. apply List.filter_app. Qed.

Lemma due_keys type v thresholds m :
  m ∈ due type (Some v) thresholds ->
  keyOf m ∈ milestoneKey type <$> thresholds.
Proof.
  unfold due. intros H. apply list_elem_of_fmap in H as (t & -> & Ht).
  apply list_elem_of_In, List.filter_In in Ht as [Ht _].
  apply list_elem_of_fmap. exists t. split; [done|]. by apply list_elem_of_In.
Qed.

(** One [forEach] loop while the storage accepts writes. *)
Lemma forEach_writable type v stats now thresholds s :
  storageWritable s = true ->
  (forall m, m ∈ thresholds -> isThreshold type m = true) ->
  NoDup (milestoneKey type <$> thresholds) ->
  exists s',
    forEachThreshold s type v stats now thresholds = (s', true)
    /\ storageWritable s' = true
    /\ dispatched s' =
       (dispatched s ++ (webhookFor stats now <$> fresh s (due type (Some v) thresholds)))%list
    /\ achievedMilestones s ⊆ achievedMilestones s'
    /\ (forall m, m ∈ due type (Some v) thresholds ->
          is_Some (achievedMilestones s' !! keyOf m))
    /\ (forall k, k ∉ milestoneKey type <$> thresholds ->
          achievedMilestones s' !! k = achievedMilestones s !! k).
Proof.
  revert s. induction thresholds as [|m rest IH]; intros s Hw Hth Hnd.
  - exists s. simpl. rewrite app_nil_r. repeat split; try done.
    intros m Hm. by apply elem_of_nil in Hm.
  - rewrite fmap_cons in Hnd. apply NoDup_cons in Hnd as [Hm Hnd].
    assert (Hth' : forall m', m' ∈ rest -> isThreshold type m' = true)
      by (intros m' Hm'; apply Hth; by right).
    simpl forEachThreshold. rewrite due_cons.
    destruct (m <=? v)%Z eqn:Ele.
    + destruct (checkMilestone_cases s type m stats now)
        as [[-> Hc] | [(Hk & _ & _ & ->) | (_ & _ & Hf & _)]]; [| |congruence].
      * destruct Hc as [[t Ht] | Hc]; [|rewrite Hth in Hc by (by left); done].
        destruct (IH s Hw Hth' Hnd) as (s' & -> & Hw' & Hd & Hsub & Hdue & Hother).
        exists s'. rewrite fresh_cons. unfold keyOf at 1. simpl. rewrite Ht.
        repeat split; try done.
        -- intros m' Hm'. apply elem_of_cons in Hm' as [-> | Hm']; [|by apply Hdue].
           exists t. by eapply lookup_weaken.
        -- intros k Hk. apply Hother. intros Hin. apply Hk. by right.
      * set (s1 := mkState _ _ _ _).
        destruct (IH s1 eq_refl Hth' Hnd) as (s' & -> & Hw' & Hd & Hsub & Hdue & Hother).
        assert (Hins : achievedMilestones s ⊆ achievedMilestones s1)
          by (by apply insert_subseteq).
        exists s'. rewrite fresh_cons. unfold keyOf at 1. simpl. rewrite Hk.
        repeat split; try done.
        -- rewrite Hd. simpl. rewrite <- app_assoc. simpl. do 3 f_equal.
           apply fresh_ext. intros m' Hm'. simpl.
           apply lookup_insert_ne. intros Heq. apply Hm. rewrite Heq.
           by apply (due_keys type v).
        -- by etrans.
        -- intros m' Hm'. apply elem_of_cons in Hm' as [-> | Hm']; [|by apply Hdue].
           exists now. eapply lookup_weaken; [|exact Hsub].
           simpl. unfold keyOf. simpl. apply lookup_insert_eq.
        -- intros k Hk'. rewrite Hother by (intros Hin; apply Hk'; by right).
           simpl. apply lookup_insert_ne. intros Heq. apply Hk'. rewrite <- Heq. by left.
    + destruct (IH s Hw Hth' Hnd) as (s' & -> & Hw' & Hd & Hsub & Hdue & Hother).
      exists s'. repeat split; try done.
      intros k Hk. apply Hother. intros Hin. apply Hk. by right.
Qed.

(** One category of the tick: the guard [if (stats.field)] and the loop. *)
Lemma category_writable type field stats now thresholds s :
  storageWritable s = true ->
  (forall m, m ∈ thresholds -> isThreshold type m = true) ->
  NoDup (milestoneKey type <$> thresholds) ->
  due type (Some 0%Z) thresholds = [] ->
  exists s',
    match statIfTruthy stats field with
    | Some v => forEachThreshold s type v stats now thresholds
    | None => (s, true)
    end = (s', true)
    /\ storageWritable s' = true
    /\ dispatched s' =
       (dispatched s
        ++ (webhookFor stats now <$> fresh s (due type (stats !! field) thresholds)))%list
    /\ achievedMilestones s ⊆ achievedMilestones s'
    /\ (forall m, m ∈ due type (stats !! field) thresholds ->
          is_Some (achievedMilestones s' !! keyOf m))
    /\ (forall k, k ∉ milestoneKey type <$> thresholds ->
          achievedMilestones s' !! k = achievedMilestones s !! k).
Proof.
  intros Hw Hth Hnd Hzero. unfold statIfTruthy.
  destruct (stats !! field) as [v|] eqn:E.
  - destruct (v =? 0)%Z eqn:Ez.
    + apply Z.eqb_eq in Ez. subst v. rewrite Hzero. simpl.
      exists s. rewrite app_nil_r. repeat split; try done.
      intros m Hm. by apply elem_of_nil in Hm.
    + by apply forEach_writable.
  - exists s. simpl. rewrite app_nil_r. repeat split; try done.
    intros m Hm. by apply elem_of_nil in Hm.
Qed.

Lemma visitors_thresholds m :
  m ∈ visitorsThresholds -> isThreshold "visitors" m = true.
Proof.
  unfold visitorsThresholds. rewrite !elem_of_cons, elem_of_nil.
  intros H. repeat destruct H as [-> | H]; done.
Qed.

Lemma registrations_thresholds m :
  m ∈ registrationsThresholds -> isThreshold "registrations" m = true.
Proof.
  unfold registrationsThresholds. rewrite !elem_of_cons, elem_of_nil.
  intros H. repeat destruct H as [-> | H]; done.
Qed.

Lemma visitors_keys_NoDup : NoDup (milestoneKey "visitors" <$> visitorsThresholds).
Proof. apply (bool_decide_unpack _). vm_compute. exact I. Qed.

Lemma registrations_keys_NoDup :
  NoDup (milestoneKey "registrations" <$> registrationsThresholds).
Proof. apply (bool_decide_unpack _). vm_compute. exact I. Qed.

Lemma key_type_differs type type' v v' :
  String.get 2 type <> String.get 2 type' ->
  (3 <= String.length type)%nat -> (3 <= String.length type')%nat ->
  milestoneKey type v <> milestoneKey type' v'.
Proof.
  unfold milestoneKey. intros Hne Hl Hl' Heq. apply Hne.
  destruct type as [|a [|b [|c type]]]; simpl in Hl; try lia.
  destruct type' as [|a' [|b' [|c' type']]]; simpl in Hl'; try lia.
  rewrite !append_cons in Heq. simpl. congruence.
Qed.

Lemma other_type_keys type type' (thresholds : list Z) v :
  String.get 2 type <> String.get 2 type' ->
  (3 <= String.length type)%nat -> (3 <= String.length type')%nat ->
  milestoneKey type v ∉ milestoneKey type' <$> thresholds.
Proof.
  intros Hne Hl Hl' Hin. apply list_elem_of_fmap in Hin as (m & Heq & _).
  by apply (key_type_differs type type' v m).
Qed.

(** C6 (amended): on a tick of the 60-second interval, while the
    milestone map can be persisted, the engine evaluates two
    categories, visitors (the stat [totalVisitors]) and registrations,
    in that order.  For every configured threshold of these not above
    the current value, the milestone is recorded after the tick, and a
    webhook is handed over for exactly those not recorded before, once
    each.  The thresholds configured for referrals are not evaluated by
    the tick: it hands over no referral webhook and records no referral
    key. *)
Theorem tick_fires_due_milestones (s : State) (stats : gmap string Z) (now : Z) :
  storageWritable s = true ->
  let s' := monitorTick s (Some stats) now in
  monitorInterval = 60000%Z
  /\ dispatched s' =
     (dispatched s ++ (webhookFor stats now <$> fresh s (dueOnTick stats)))%list
  /\ (forall m, m ∈ dueOnTick stats -> is_Some (achievedMilestones s' !! keyOf m))
  /\ (forall m, m ∈ dueOnTick stats -> m.1 = "visitors" \/ m.1 = "registrations")
  /\ (forall v, achievedMilestones s' !! milestoneKey "referrals" v
                = achievedMilestones s !! milestoneKey "referrals" v).
Proof.
  intros Hw s'. subst s'. split; [done|]. unfold monitorTick.
  destruct (category_writable "visitors" "totalVisitors" stats now visitorsThresholds s
              Hw visitors_thresholds visitors_keys_NoDup eq_refl)
    as (s1 & -> & Hw1 & Hd1 & Hsub1 & Hdue1 & Hother1).
  destruct (category_writable "registrations" "registrations" stats now
              registrationsThresholds s1
              Hw1 registrations_thresholds registrations_keys_NoDup eq_refl)
    as (s2 & E2 & Hw2 & Hd2 & Hsub2 & Hdue2 & Hother2).
  assert (Hs2 : match statIfTruthy stats "registrations" with
                | Some v => (forEachThreshold s1 "registrations" v stats now
                               registrationsThresholds).1
                | None => s1
                end = s2).
  { destruct (statIfTruthy stats "registrations"); [by rewrite E2|congruence]. }
  rewrite Hs2. clear Hs2 E2.
  assert (Hfresh : fresh s1 (due "registrations" (stats !! "registrations")
                               registrationsThresholds)
                   = fresh s (due "registrations" (stats !! "registrations")
                                registrationsThresholds)).
  { apply fresh_ext. intros m Hm. apply Hother1.
    destruct (stats !! "registrations") as [v|]; [|by apply elem_of_nil in Hm].
    unfold due in Hm. apply list_elem_of_fmap in Hm as (t & -> & _).
    change (keyOf ("registrations", t)) with (milestoneKey "registrations" t).
    apply other_type_keys; simpl; (done || lia). }
  split; [|split; [|split]].
  - rewrite Hd2, Hd1, Hfresh. unfold dueOnTick.
    by rewrite fresh_app, fmap_app, app_assoc.
  - unfold dueOnTick. intros m Hm. apply elem_of_app in Hm as [Hm | Hm].
    + destruct (Hdue1 m Hm) as [t Ht]. exists t. by eapply lookup_weaken.
    + by apply Hdue2.
  - unfold dueOnTick, due. intros m Hm. apply elem_of_app in Hm as [Hm | Hm].
    + left. destruct (stats !! "totalVisitors"); [|by apply elem_of_nil in Hm].
      by apply list_elem_of_fmap in Hm as (t & -> & _).
    + right. destruct (stats !! "registrations"); [|by apply elem_of_nil in Hm].
      by apply list_elem_of_fmap in Hm as (t & -> & _).
  - intros v. rewrite Hother2, Hother1; [done| |];
      apply other_type_keys; simpl; (done || lia).
Qed.

End MilestoneFacts.

(* ===================================================================== *)
(** ** The properties on concrete runs                                    *)
(* ===================================================================== *)

Section PipelineRuns.

Import Tracker.



(** One request failing until the budget is used up: three retries. *)
Lemma retry_budget_shared_witness :
  (Z.of_nat (retries defaultConfig (init defaultConfig) (EPageView :: failingChain 3))
   <= 3)%Z
  /\ maxRetries (run defaultConfig (init defaultConfig) (EPageView :: failingChain 3))
     = 0%Z.
Proof.
  destruct (retry_budget_shared defaultConfig ltac:(simpl; lia)) as (_ & Hacc & _ & Hseq).
  split.
  - apply (Hseq (EPageView :: failingChain 3)). vm_compute. reflexivity.
  - rewrite Hacc. vm_compute. reflexivity.
Defined.

(** C9 as stated fails: four requests that fail while the counter is
    still 3 are all retried; four retries happen and the counter ends
    at -1. *)
Lemma retry_budget_exceeded :
  initialMaxRetries defaultConfig = 3%Z
  /\ retries defaultConfig (init defaultConfig) burst = 4%nat
  /\ maxRetries (run defaultConfig (init defaultConfig) burst) = (-1)%Z
  /\ length (network (run defaultConfig (init defaultConfig) burst)) = 8%nat.
Proof. repeat split; vm_compute; reflexivity. Qed.

(** An update asked for before the page view has got its identifier
    is dropped; the same update asked for after it is sent with the
    identifier. *)
Lemma updates_wait_for_record_id_witness :
  let s := run defaultConfig (init defaultConfig) [EPageView] in
  network (step defaultConfig s (EUpdateField "plan" "pro")) = network s
  /\ network (run defaultConfig s
                [EFetchSettled 0 (HttpOk (Some "42")); EUpdateField "plan" "pro"])
     = [pageViewCall; mkNetCall (FieldData "plan" "pro") true (Some "42") false].
Proof.
  intros s. split.
  - destruct (updates_wait_for_record_id defaultConfig) as (H & _ & _).
    apply (H s (EUpdateField "plan" "pro")); reflexivity.
  - vm_compute. reflexivity.
Defined.

End PipelineRuns.

Section MilestoneRuns.

Import Webhooks.

(** The visitor count reaches 100 and then 105: the thresholds 10, 50
    and 100 fire once. *)
Lemma milestone_fires_once_witness :
  let s := run (pageLoad ∅ true)
             [ETick (Some (visitorStats 100)) 1; ETick (Some (visitorStats 105)) 2] in
  NoDup (webhookKey <$> dispatched s)
  /\ webhookKey <$> dispatched s = ["visitors_10"; "visitors_50"; "visitors_100"].
Proof.
  intros s. split.
  - destruct milestone_fires_once as (_ & H & _).
    apply (H ∅ true
             [ETick (Some (visitorStats 100)) 1; ETick (Some (visitorStats 105)) 2]).
  - vm_compute. reflexivity.
Defined.

(** A tick with ten visitors and one registration on a fresh page. *)
Lemma tick_fires_due_milestones_witness :
  webhookKey <$> dispatched (monitorTick (pageLoad ∅ true) (Some sampleStats) 7)
  = ["visitors_10"; "registrations_1"].
Proof.
  destruct (tick_fires_due_milestones (pageLoad ∅ true) sampleStats 7 eq_refl)
    as (_ & Hd & _).
  rewrite Hd. vm_compute. reflexivity.
Defined.

(** C6 as stated fails: with five referrals in the stats the threshold
    5 of the referrals is due, yet the tick fires the visitor and the
    registration milestones only and records no referral key. *)
Lemma tick_skips_referrals :
  dueAsSpecified sampleStats = [("visitors", 10%Z); ("registrations", 1%Z); ("referrals", 5%Z)]
  /\ webhookKey <$> dispatched (monitorTick (pageLoad ∅ true) (Some sampleStats) 7)
     = ["visitors_10"; "registrations_1"]
  /\ achievedMilestones (monitorTick (pageLoad ∅ true) (Some sampleStats) 7)
       !! milestoneKey "referrals" 5 = None.
Proof. repeat split; vm_compute; reflexivity. Qed.

End MilestoneRuns.

(* ===================================================================== *)
(** ** Further properties of the referral tracker                         *)
(* ===================================================================== *)

(** X1: [getUrlParams] is case-insensitive in the names and keeps, for
    each lower-cased name, the value of the last pair of the query
    carrying it.  This is for a query whose names are ASCII text, on
    which [toLowerCase] is ASCII lower-casing, and for every name but
    [__proto__]: a pair of that name leaves no property. *)
Theorem getUrlParams_last_value (search : list (string * string)) (name : string) :
  Forall (fun kv => Js.isAscii kv.1 = true) search ->
  (name <> "__proto__" -> getUrlParams search !! name = lastValue name search)
  /\ getUrlParams search !! "__proto__" = None.
Proof.
  intros _. unfold getUrlParams, lastValue.
  induction search as [|kv search [IH IHp]] using rev_ind; [done|].
  rewrite fold_left_app, rev_app_distr. simpl. unfold Js.setProperty at 1 3.
  destruct (String.eqb (Js.toLowerCase kv.1) "__proto__") eqn:Ep.
  - apply String.eqb_eq in Ep. split; [|done]. intros Hn.
    rewrite Ep. destruct (String.eqb "__proto__" name) eqn:E.
    + apply String.eqb_eq in E. congruence.
    + simpl. by apply IH.
  - apply String.eqb_neq in Ep. split.
    + intros Hn.
      destruct (String.eqb (Js.toLowerCase kv.1) name) eqn:E; simpl.
      * apply String.eqb_eq in E. subst name. by rewrite lookup_insert_eq.
      * apply String.eqb_neq in E. rewrite lookup_insert_ne by done. by apply IH.
    + by rewrite lookup_insert_ne.
Qed.

(** [?Ref=bob&lang=en&REF=dave&__proto__=x]: the last [ref] wins and
    [__proto__] leaves nothing. *)
Lemma getUrlParams_last_value_witness :
  let search := [("Ref", "bob"); ("lang", "en"); ("REF", "dave"); ("__proto__", "x")] in
  getUrlParams search !! "ref" = Some "dave"
  /\ getUrlParams search !! "__proto__" = None.
Proof.
  intros search.
  destruct (getUrlParams_last_value search "ref") as [H Hp].
  { repeat constructor. }
  split; [|exact Hp]. rewrite H by done. vm_compute. reflexivity.
Defined.

(** X2: every string accepted as an invite code is also accepted as a
    username; the two patterns overlap. *)
Theorem inviteCode_is_username (s : string) :
  isValidInviteCode s = true -> isValidUsername s = true.
Proof.
  unfold isValidInviteCode, isValidUsername, Js.matchClass.
  rewrite !andb_true_iff, !Nat.leb_le. intros [[Hc Hlo] Hhi].
  repeat split; [|lia|lia].
  eapply allChars_impl; [apply isAlnum_isWord | exact Hc].
Qed.

Lemma inviteCode_is_username_witness : isValidUsername "zyDK65" = true.
Proof. apply inviteCode_is_username. reflexivity. Defined.

Lemma paramIf_pred pred (params : gmap string string) n v :
  paramIf pred params n = Some v -> Js.truthy v = true /\ pred v = true.
Proof.
  unfold paramIf. destruct (params !! n) as [x|]; [|done].
  destruct (Js.truthy x && pred x) eqn:E; [|done].
  intros [= ->]. by apply andb_true_iff in E.
Qed.

Lemma firstMatch_pred pred (params : gmap string string) names v :
  firstMatch pred params names = Some v -> Js.truthy v = true /\ pred v = true.
Proof.
  induction names as [|n names IH]; simpl; [done|].
  destruct (paramIf pred params n) as [x|] eqn:E; [|done].
  intros [= ->]. by apply (paramIf_pred pred params n).
Qed.

(** X3: whatever the query, a referrer extracted from the URL matches
    the username pattern and an invite code extracted from it matches
    the invite-code pattern; the source is [shared_link] exactly when
    [from] holds a valid username, and [url_param] otherwise. *)
Theorem extracted_values_valid (params : gmap string string) :
  let u := extractReferralFromUrl params in
  (forall r, u_referrer u = Some r -> isValidUsername r = true /\ Js.truthy r = true)
  /\ (forall c, u_inviteCode u = Some c ->
        isValidInviteCode c = true /\ Js.truthy c = true)
  /\ u_source u =
     match paramIf isValidUsername params "from" with
     | Some _ => "shared_link"
     | None => "url_param"
     end.
Proof.
  unfold extractReferralFromUrl, genericPass.
  rewrite genericLoop_roles. simpl fst. simpl snd.
  assert (Hcode : forall c,
            match paramIf isValidInviteCode params "code" with
            | Some v => Some v
            | None => match lastMatch isValidInviteCode params validParams with
                      | Some v => Some v
                      | None => None
                      end
            end = Some c -> isValidInviteCode c = true /\ Js.truthy c = true).
  { intros c. destruct (paramIf isValidInviteCode params "code") as [x|] eqn:E.
    - intros [= ->]. by destruct (paramIf_pred _ _ _ _ E).
    - destruct (lastMatch isValidInviteCode params validParams) as [x|] eqn:E';
        [|done].
      intros [= ->]. by destruct (firstMatch_pred _ _ _ _ E'). }
  destruct (paramIf isValidUsername params "from") as [f|] eqn:Ef; simpl.
  - split; [|split; [exact Hcode | done]].
    intros r [= ->]. by destruct (paramIf_pred _ _ _ _ Ef).
  - split; [|split; [exact Hcode | done]].
    intros r. destruct (paramIf isValidUsername params "ref") as [x|] eqn:E.
    + intros [= ->]. by destruct (paramIf_pred _ _ _ _ E).
    + destruct (lastMatch usernameOnly params validParams) as [x|] eqn:E'; [|done].
      intros [= ->]. destruct (firstMatch_pred _ _ _ _ E') as [Ht Hu].
      unfold usernameOnly in Hu. by apply andb_true_iff in Hu as [_ ->].
Qed.

(** X22: the special cases decide after the loop.  The referrer is
    the value of [from] when that is a valid username, else the value
    of [ref] when that is one, else the candidate of the loop; the
    invite code is the value of [code] when that is a valid invite
    code, else the candidate of the loop.  In particular a valid [from]
    prevails over a valid [ref]. *)
Theorem override_precedence (params : gmap string string) :
  u_referrer (extractReferralFromUrl params) =
    match paramIf isValidUsername params "from" with
    | Some v => Some v
    | None =>
        match paramIf isValidUsername params "ref" with
        | Some v => Some v
        | None => lastMatch usernameOnly params validParams
        end
    end
  /\ u_inviteCode (extractReferralFromUrl params) =
    match paramIf isValidInviteCode params "code" with
    | Some v => Some v
    | None => lastMatch isValidInviteCode params validParams
    end.
Proof.
  unfold extractReferralFromUrl, genericPass. rewrite genericLoop_roles. simpl.
  destruct (paramIf isValidUsername params "from"),
           (paramIf isValidUsername params "ref"),
           (paramIf isValidInviteCode params "code"),
           (lastMatch usernameOnly params validParams),
           (lastMatch isValidInviteCode params validParams); done.
Qed.

Lemma firstMatch_none pred (params : gmap string string) names :
  (forall n, In n names -> paramIf pred params n = None) ->
  firstMatch pred params names = None.
Proof.
  induction names as [|n names IH]; intros H; simpl; [done|].
  rewrite H by (by left). apply IH. intros m Hm. apply H. by right.
Qed.

Lemma paramIf_none pred (params : gmap string string) n :
  (forall v, params !! n = Some v -> pred v = false) -> paramIf pred params n = None.
Proof.
  intros H. unfold paramIf. destruct (params !! n) as [v|]; [|done].
  by rewrite (H v eq_refl), andb_false_r.
Qed.

(** X4: values that match neither pattern are ignored, not errors: a
    query in which no listed referral parameter holds a value matching
    a pattern and no UTM parameter holds a value gives no referrer, no
    invite code and no URL signal, so resolution falls back to the
    persisted state or to the page's values. *)
Theorem malformed_values_ignored (params : gmap string string) :
  (forall n v, In n validParams -> params !! n = Some v ->
     isValidInviteCode v = false /\ isValidUsername v = false) ->
  (forall n, In n utmParams -> Js.truthyO (params !! n) = false) ->
  extractReferralFromUrl params = mkUrlReferral None None "url_param"
  /\ extractUTMParams params = nullUtm
  /\ hasUrlSignal (extractReferralFromUrl params) (extractUTMParams params) = false.
Proof.
  intros Hv Hu.
  assert (Hp : forall pred n,
            (forall v, isValidInviteCode v = false /\ isValidUsername v = false ->
                       pred v = false) ->
            In n validParams -> paramIf pred params n = None).
  { intros pred n Hpred Hin. apply paramIf_none. intros v Hn.
    apply Hpred. by apply (Hv n v). }
  assert (Hl : forall pred,
            (forall v, isValidInviteCode v = false /\ isValidUsername v = false ->
                       pred v = false) ->
            lastMatch pred params validParams = None).
  { intros pred Hpred. unfold lastMatch. apply firstMatch_none.
    intros n Hin. apply Hp; [done|]. by apply in_rev. }
  assert (L1 : lastMatch usernameOnly params validParams = None).
  { apply Hl. intros v [_ H]. unfold usernameOnly. by rewrite H, andb_false_r. }
  assert (L2 : lastMatch isValidInviteCode params validParams = None)
    by (apply Hl; by intros v [-> _]).
  assert (P1 : paramIf isValidUsername params "ref" = None)
    by (apply Hp; [by intros v [_ ->] | simpl; tauto]).
  assert (P2 : paramIf isValidInviteCode params "code" = None)
    by (apply Hp; [by intros v [-> _] | simpl; tauto]).
  assert (P3 : paramIf isValidUsername params "from" = None)
    by (apply Hp; [by intros v [_ ->] | simpl; tauto]).
  assert (He : extractReferralFromUrl params = mkUrlReferral None None "url_param").
  { unfold extractReferralFromUrl, genericPass. rewrite genericLoop_roles.
    by rewrite L1, L2, P1, P2, P3. }
  assert (Hutm : extractUTMParams params = nullUtm).
  { unfold extractUTMParams, utmOf, Js.or, nullUtm.
    rewrite !Hu; simpl; tauto. }
  split; [done|]. split; [done|]. by rewrite He, Hutm.
Qed.

(** [?ref=!!&lang=en]: a value matching neither pattern and a
    parameter the tracker does not read. *)
Lemma malformed_values_ignored_witness :
  extractReferralFromUrl (getUrlParams [("ref", "!!"); ("lang", "en")])
  = mkUrlReferral None None "url_param".
Proof.
  apply malformed_values_ignored.
  - intros n v Hin. simpl in Hin.
    repeat destruct Hin as [<- | Hin]; try done; vm_compute; intros [= <-]; auto.
  - intros n Hin. simpl in Hin.
    repeat destruct Hin as [<- | Hin]; try done; vm_compute; reflexivity.
Defined.

(** *** Resolution over successive page loads *)

Lemma load_after_save st data now :
  lsAvailable st = true -> loadReferralData (saveReferralData st data) now = Some data.
Proof.
  intros H. apply andb_true_iff in H as [Hrd Hwr].
  unfold loadReferralData, primaryLookup, saveReferralData. simpl.
  by rewrite Hrd, Hwr.
Qed.

Lemma load_again st now now' l :
  loadReferralData st now = Some l ->
  exists l',
    loadReferralData st now' = Some l'
    /\ referrer l' = referrer l /\ inviteCode l' = inviteCode l
    /\ source l' = source l /\ utm l' = utm l /\ landingPage l' = landingPage l.
Proof.
  unfold loadReferralData. destruct (primaryLookup st) as [x|].
  - intros [= <-]. exists x. repeat split.
  - destruct (cookieRef st) as [c|]; [|done].
    destruct (Js.truthy c); [|done]. intros [= <-]. eexists. split; [reflexivity|].
    simpl. repeat split.
Qed.

(** X5: attribution sticks.  Once a page load has resolved the referral
    data with a usable [localStorage], a later page load whose URL
    carries no signal resolves to the same referrer, invite code,
    source, UTM values and landing page, whatever values that page was
    built with, and writes nothing. *)
Theorem resolution_sticks (rd rd' : ReferralState)
    (params params' : gmap string string) (st : Storage) (now now' : string) :
  lsAvailable st = true ->
  hasUrlSignal (extractReferralFromUrl params') (extractUTMParams params') = false ->
  let first := initReferralTracking rd params st now in
  let second := initReferralTracking rd' params' first.2 now' in
  second.2 = first.2
  /\ referrer second.1 = referrer first.1
  /\ inviteCode second.1 = inviteCode first.1
  /\ source second.1 = source first.1
  /\ utm second.1 = utm first.1
  /\ landingPage second.1 = landingPage first.1.
Proof.
  intros Hls Hno first second.
  assert (Hload : exists l,
            loadReferralData first.2 now' = Some l
            /\ referrer l = referrer first.1 /\ inviteCode l = inviteCode first.1
            /\ source l = source first.1 /\ utm l = utm first.1
            /\ landingPage l = landingPage first.1).
  { subst first. unfold initReferralTracking.
    destruct (hasUrlSignal (extractReferralFromUrl params) (extractUTMParams params)).
    - simpl. rewrite load_after_save by done. eexists. split; [reflexivity|].
      repeat split.
    - destruct (loadReferralData st now) as [stored|] eqn:E.
      + simpl. by apply (load_again st now).
      + simpl. rewrite load_after_save by done. eexists. split; [reflexivity|].
        repeat split. }
  destruct Hload as (l & Hl & H1 & H2 & H3 & H4 & H5).
  assert (Hsec : second = (l, first.2)).
  { subst second. unfold initReferralTracking. by rewrite Hno, Hl. }
  rewrite Hsec. simpl. repeat split; done.
Qed.

(** A visit through [?ref=bob], then a visit of the bare page. *)
Lemma resolution_sticks_witness :
  let rd := referralData0 "t1" "https://page/?ref=bob" in
  let first := initReferralTracking rd (getUrlParams [("ref", "bob")])
                 (emptyStorage true) "t1" in
  let second := initReferralTracking (referralData0 "t2" "https://page/")
                  (getUrlParams []) first.2 "t2" in
  referrer second.1 = Some "bob" /\ source second.1 = "url_param"
  /\ second.2 = first.2.
Proof.
  intros rd first second.
  destruct (resolution_sticks rd (referralData0 "t2" "https://page/")
              (getUrlParams [("ref", "bob")]) (getUrlParams [])
              (emptyStorage true) "t1" "t2" eq_refl
              ltac:(vm_compute; reflexivity))
    as (Hs & Hr & _ & Hsrc & _).
  fold rd first second in Hs, Hr, Hsrc.
  rewrite Hr, Hsrc. split; [|split]; [vm_compute; reflexivity ..| exact Hs].
Defined.

(** X6: when the primary store gives nothing, [loadReferralData]
    answers from the cookie: it returns nothing exactly when the cookie
    is missing or empty, and a state rebuilt from the cookie always has
    a non-empty referrer and invite code (the configured defaults fill
    what the cookie lacks), the source [cookie], a fresh timestamp and
    no landing page. *)
Theorem load_from_cookie (st : Storage) (now : string) :
  primaryLookup st = None ->
  (loadReferralData st now = None <-> Js.truthyO (cookieRef st) = false)
  /\ forall l, loadReferralData st now = Some l ->
       Js.truthyO (referrer l) = true /\ Js.truthyO (inviteCode l) = true
       /\ source l = "cookie" /\ timestamp l = now /\ landingPage l = None.
Proof.
  intros Hp. unfold loadReferralData. rewrite Hp.
  destruct (cookieRef st) as [c|]; simpl; [|done].
  destruct (Js.truthy c); [|done]. split; [done|].
  intros l [= <-]. simpl. unfold Js.or.
  split; [by destruct (Js.truthyO (_ !! 0%nat)) eqn:E|].
  split; [by destruct (Js.truthyO (_ !! 1%nat)) eqn:E|]. done.
Qed.

(** A cookie holding a referrer and no separator. *)
Lemma load_from_cookie_witness :
  let st := mkStorage false false None (Some "bob") None in
  exists l,
    loadReferralData st "t1" = Some l
    /\ Js.truthyO (inviteCode l) = true /\ source l = "cookie".
Proof.
  intros st. destruct (load_from_cookie st "t1" eq_refl) as [_ H].
  destruct (loadReferralData st "t1") as [l|] eqn:E; [|discriminate E].
  destruct (H l eq_refl) as (_ & Hc & Hs & _).
  exists l. auto.
Defined.

(** *** Rewriting a link again *)

Lemma filter_filter_same (keep : string * string -> bool) (q : list (string * string)) :
  List.filter keep (List.filter keep q) = List.filter keep q.
Proof.
  induction q as [|kv q IH]; simpl; [done|].
  destruct (keep kv) eqn:E; simpl; [|done]. by rewrite E, IH.
Qed.

Lemma sp_set_names name value q :
  List.filter (isName name) (sp_set name value q) = [(name, value)].
Proof.
  assert (Hself : isName name (name, value) = true) by (by apply isName_true).
  induction q as [|kv q IH]; simpl.
  - by rewrite Hself.
  - destruct (isName name kv) eqn:E; simpl.
    + rewrite Hself. f_equal. clear IH.
      induction q as [|kv' q IH]; simpl; [done|].
      destruct (isName name kv') eqn:E'; simpl; [done|]. by rewrite E'.
    + by rewrite E.
Qed.

Lemma filter_no_name name (q : list (string * string)) :
  List.filter (isName name) q = [] ->
  List.filter (fun p => negb (isName name p)) q = q.
Proof.
  induction q as [|kv q IH]; simpl; [done|].
  destruct (isName name kv); simpl; [done|]. intros H. f_equal. by apply IH.
Qed.

Lemma sp_set_fixed name value q :
  List.filter (isName name) q = [(name, value)] -> sp_set name value q = q.
Proof.
  induction q as [|kv q IH]; simpl; [done|].
  destruct (isName name kv) eqn:E.
  - intros [= -> Hrest]. f_equal. by apply filter_no_name.
  - intros H. f_equal. by apply IH.
Qed.

Lemma names_set_other name value n q :
  n <> name ->
  List.filter (isName n) (sp_set name value q) = List.filter (isName n) q.
Proof.
  intros Hne. apply filter_set_keep.
  - intros v. apply isName_false. simpl. congruence.
  - intros kv Hk. apply isName_false. congruence.
Qed.

Lemma sp_has_set name value q : sp_has name (sp_set name value q) = true.
Proof.
  rewrite sp_has_get, sp_get_set_eq. by apply bool_decide_eq_true_2.
Qed.

Lemma ifAbsent_has name value q :
  sp_has name (if sp_has name q then q else sp_set name value q) = true.
Proof. destruct (sp_has name q) eqn:E; [exact E | apply sp_has_set]. Qed.

Lemma ifAbsent_has_other name value n q :
  n <> name ->
  sp_has n (if sp_has name q then q else sp_set name value q) = sp_has n q.
Proof.
  intros Hne. destruct (sp_has name q); [done|]. by apply sp_has_set_other.
Qed.

Lemma ifAbsent_names_other name value n q :
  n <> name ->
  List.filter (isName n) (if sp_has name q then q else sp_set name value q)
  = List.filter (isName n) q.
Proof.
  intros Hne. destruct (sp_has name q); [done|]. by apply names_set_other.
Qed.

(** X7: rewriting a link is idempotent: the rewriter run again on a
    link it has rewritten (as on the [unilive:content-updated] event)
    leaves the query as it is. *)
Theorem rewriteParams_idempotent (data : ReferralState) (q : list (string * string)) :
  rewriteParams data (rewriteParams data q) = rewriteParams data q.
Proof.
  assert (Hr : List.filter (isName "recomId") (rewriteParams data q)
               = [("recomId", Js.toStr (inviteCode data))]).
  { unfold rewriteParams.
    rewrite !ifAbsent_names_other by done. apply sp_set_names. }
  assert (Href : sp_has "referrer" (rewriteParams data q) = true).
  { unfold rewriteParams.
    rewrite ifAbsent_has_other by done. apply ifAbsent_has. }
  assert (Hsrc : sp_has "source" (rewriteParams data q) = true).
  { unfold rewriteParams. apply ifAbsent_has. }
  set (q3 := rewriteParams data q) in *.
  unfold rewriteParams.
  by rewrite (sp_set_fixed _ _ _ Hr), Href, Hsrc.
Qed.

(** X8: the click-time helper [updateReferralParams], unlike the
    rewriter of the page's links, overwrites all three parameters: on
    an anchor with a non-empty [href] that the URL parser accepts, the
    URL written back carries the given invite code, referrer and source
    whatever it carried before, and every pair of another name is
    unchanged.  Any other element is left alone. *)
Theorem click_helper_overwrites (parseURL : string -> option URL)
    (serializeURL : URL -> string) (tagName h inviteCode referrer source : string)
    (url : URL) :
  Js.truthy h = true ->
  parseURL h = Some url ->
  let q' := clickParams inviteCode referrer source (searchParams url) in
  updateReferralParams parseURL serializeURL tagName (Some h) inviteCode referrer source
  = Some (if String.eqb tagName "A"
          then Some (serializeURL (mkURL (url_base url) q' (url_hash url)))
          else Some h)
  /\ sp_get "recomId" q' = Some inviteCode
  /\ sp_get "referrer" q' = Some referrer
  /\ sp_get "source" q' = Some source
  /\ List.filter otherParam q' = List.filter otherParam (searchParams url).
Proof.
  intros Ht Hp q'. subst q'. unfold updateReferralParams, clickParams.
  rewrite Ht, Hp. split; [by destruct (String.eqb tagName "A")|].
  split; [|split; [|split]].
  - rewrite !sp_get_set_other by done. apply sp_get_set_eq.
  - rewrite sp_get_set_other by done. apply sp_get_set_eq.
  - apply sp_get_set_eq.
  - rewrite !otherParam_set; [done | simpl; tauto ..].
Qed.

(** A registration link that already names a referrer, clicked. *)
Lemma click_helper_overwrites_witness :
  updateReferralParams plainParse plainSerialize "A"
    (Some "https://unilive.io/register?referrer=dave&lang=en") "zyDK65" "bob" "url_param"
  = Some (Some "https://unilive.io/register?referrer=bob&lang=en&recomId=zyDK65&source=url_param").
Proof.
  destruct (click_helper_overwrites plainParse plainSerialize "A"
              "https://unilive.io/register?referrer=dave&lang=en"
              "zyDK65" "bob" "url_param"
              (mkURL "https://unilive.io/register" [("referrer", "dave"); ("lang", "en")] "")
              eq_refl ltac:(vm_compute; reflexivity)) as [H _].
  rewrite H. vm_compute. reflexivity.
Defined.

(** X9: the [onclick] wrapper is applied at most once: running the
    second loop of [updateRegistrationLinks] again leaves a wrapped
    handler as it is, and the wrapped handler still ends with the
    original one. *)
Theorem wrapOnclick_once (data : ReferralState) (onclick : option string) :
  wrapOnclick data (wrapOnclick data onclick) = wrapOnclick data onclick
  /\ forall o, onclick = Some o ->
       exists prefix, wrapOnclick data onclick = Some (prefix ++ o).
Proof.
  split.
  - destruct onclick as [o|]; [|done]. unfold wrapOnclick at 2.
    destruct (Js.includes o "trackSignup") eqn:Et; [|simpl; by rewrite Et].
    destruct (Js.truthy o && negb (Js.includes o "updateReferralParams")) eqn:E.
    + assert (Hu : Js.includes (wrappedOnclick data o) "updateReferralParams" = true).
      { apply includes_spec. exists "".
        exists ("(event, '" ++ Js.toStr (inviteCode data) ++ "', '"
                ++ Js.toStr (referrer data) ++ "', '" ++ source data ++ "'); " ++ o).
        unfold wrappedOnclick.
        change "updateReferralParams(event, '"
          with ("updateReferralParams" ++ "(event, '").
        by rewrite append_assoc. }
      unfold wrapOnclick. rewrite Hu, andb_false_r, Et, E.
      by destruct (Js.includes (wrappedOnclick data o) "trackSignup").
    + unfold wrapOnclick. by rewrite Et, E.
  - intros o ->. unfold wrapOnclick.
    destruct (Js.includes o "trackSignup"); [|by exists ""].
    destruct (Js.truthy o && negb (Js.includes o "updateReferralParams"));
      [|by exists ""].
    eexists. unfold wrappedOnclick. rewrite <- !append_assoc. reflexivity.
Qed.

(* ===================================================================== *)
(** ** Further properties of the tracker                                  *)
(* ===================================================================== *)

Section TrackerMore.

Import Tracker.

Variable cfg : Config.

(** A dictionary filled pair by pair under a renaming of the keys
    holds, for a key, the value of the last pair renamed to it. *)
Lemma fold_insert_last {V : Type} (f : string -> string)
    (entries : list (string * V)) (key : string) :
  fold_left (fun (mapped : gmap string V) kv => <[f kv.1 := kv.2]> mapped) entries ∅
    !! key
  = snd <$> find (fun kv => String.eqb (f kv.1) key) (rev entries).
Proof.
  induction entries as [|kv entries IH] using rev_ind; [done|].
  rewrite fold_left_app, rev_app_distr. simpl.
  destruct (String.eqb (f kv.1) key) eqn:E; simpl.
  - apply String.eqb_eq in E. subst key. by rewrite lookup_insert_eq.
  - apply String.eqb_neq in E. by rewrite lookup_insert_ne.
Qed.

Lemma find_unique {V : Type} (f : string -> string) (l : list (string * V)) k v :
  (k, v) ∈ l ->
  (forall k' v', (k', v') ∈ l -> f k' = f k -> (k', v') = (k, v)) ->
  find (fun kv => String.eqb (f kv.1) (f k)) l = Some (k, v).
Proof.
  induction l as [|[k0 v0] l IH]; intros Hin Huniq; [by apply elem_of_nil in Hin|].
  simpl. destruct (String.eqb (f k0) (f k)) eqn:E.
  - apply String.eqb_eq in E. f_equal. apply Huniq; [by left | done].
  - apply String.eqb_neq in E. apply elem_of_cons in Hin as [[= -> ->] | Hin]; [done|].
    apply IH; [done|]. intros k' v' Hin'. apply Huniq. by right.
Qed.

Lemma elem_of_rev {A : Type} (x : A) (l : list A) : x ∈ rev l <-> x ∈ l.
Proof. rewrite !list_elem_of_In. symmetry. apply in_rev. Qed.

Lemma nodup_fst_unique {V : Type} (l : list (string * V)) k v v' :
  NoDup l.*1 -> (k, v) ∈ l -> (k, v') ∈ l -> v = v'.
Proof.
  induction l as [|[k0 v0] l IH]; intros Hnd Hin Hin'; [by apply elem_of_nil in Hin|].
  rewrite fmap_cons in Hnd. apply NoDup_cons in Hnd as [Hk0 Hnd].
  apply elem_of_cons in Hin as [Heq | Hin];
    apply elem_of_cons in Hin' as [Heq' | Hin'].
  - congruence.
  - exfalso. apply Hk0. apply list_elem_of_fmap. exists (k, v'). split; [|done].
    simpl. congruence.
  - exfalso. apply Hk0. apply list_elem_of_fmap. exists (k, v). split; [|done].
    simpl. congruence.
  - by apply IH.
Qed.

Lemma fold_setProperty {V : Type} (f : string -> string)
    (entries : list (string * V)) (init : gmap string V) :
  (forall kv, kv ∈ entries -> f kv.1 <> "__proto__") ->
  fold_left (fun mapped kv => Js.setProperty (f kv.1) kv.2 mapped) entries init
  = fold_left (fun mapped kv => <[f kv.1 := kv.2]> mapped) entries init.
Proof.
  revert init. induction entries as [|kv entries IH]; intros init Hne; [done|].
  simpl. unfold Js.setProperty at 2.
  assert (E : String.eqb (f kv.1) "__proto__" = false).
  { apply String.eqb_neq, Hne. by left. }
  rewrite E. apply IH. intros kv' Hin. apply Hne. by right.
Qed.

(** X10: [mapFields] renames the fields and keeps their values: when
    the keys of the data are distinct, no two of them get the same
    name and none gets the name [__proto__], every field of the data
    is found in the result under the name [mapFields] gives it (the
    entry of the mapping when it has a non-empty one, the text of the
    inherited value for a key that [Object.prototype] defines, its own
    name otherwise) with its value, and the result has no other
    field. *)
Theorem mapFields_renames {V : Type} (inheritedKey : string -> string)
    (mapping : gmap string string) (entries : list (string * V)) :
  NoDup entries.*1 ->
  (forall k1 k2, k1 ∈ entries.*1 -> k2 ∈ entries.*1 ->
     renameField inheritedKey mapping k1 = renameField inheritedKey mapping k2 ->
     k1 = k2) ->
  (forall k, k ∈ entries.*1 -> renameField inheritedKey mapping k <> "__proto__") ->
  (forall k v, (k, v) ∈ entries ->
     mapFields inheritedKey (Some mapping) entries !! renameField inheritedKey mapping k
     = Some v)
  /\ (forall name v, mapFields inheritedKey (Some mapping) entries !! name = Some v ->
        exists k, (k, v) ∈ entries /\ renameField inheritedKey mapping k = name).
Proof.
  intros Hnd Hinj Hproto.
  assert (Hfold : mapFields inheritedKey (Some mapping) entries
                  = fold_left (fun (mapped : gmap string V) kv =>
                                 <[renameField inheritedKey mapping kv.1 := kv.2]> mapped)
                      entries ∅).
  { unfold mapFields. apply fold_setProperty. intros [k v] Hin. simpl.
    apply Hproto. apply list_elem_of_fmap. by exists (k, v). }
  rewrite Hfold. split.
  - intros k v Hin. rewrite fold_insert_last.
    rewrite (find_unique (renameField inheritedKey mapping) (rev entries) k v); [done| |].
    + by apply elem_of_rev.
    + intros k' v' Hin' Heq. rewrite elem_of_rev in Hin'.
      assert (k' = k).
      { apply Hinj; [| |done]; apply list_elem_of_fmap.
        - by exists (k', v').
        - by exists (k, v). }
      subst k'. f_equal. by apply (nodup_fst_unique entries k).
  - intros name v. rewrite fold_insert_last.
    destruct (find _ (rev entries)) as [[k0 v0]|] eqn:E; [|done].
    simpl. intros [= ->]. apply find_some in E as [Hin Heq].
    apply String.eqb_eq in Heq. simpl in Heq. exists k0. split; [|done].
    apply elem_of_rev. by apply list_elem_of_In.
Qed.

(** *** The record identifier, the click counter, the endpoint *)

Ltac send_fixed :=
  match goal with
  | |- context [sendToBackend cfg ?st ?rq] =>
      destruct (sendToBackend_fixed cfg st rq) as (?&?&?&?&?)
  end.

Lemma recordId_kept s ev :
  Js.truthyO (recordId s) = true -> recordId (step cfg s ev) = recordId s.
Proof.
  intros Ht. destruct ev; simpl.
  - unfold trackPageView. destruct (trackPageViews cfg); simpl; [|done]. by send_fixed.
  - unfold updateTimeOnPage. rewrite Ht. simpl. by send_fixed.
  - unfold trackClick. destruct (trackClicks cfg); simpl; [|done].
    destruct (isCtaButton && Js.truthyO (recordId s)); simpl; [|done]. by send_fixed.
  - unfold trackRegistration.
    destruct (negb (trackRegistrations cfg) || negb (Js.truthyO (recordId s)));
      simpl; [done|]. by send_fixed.
  - unfold sendFinalUpdate. rewrite Ht. simpl.
    destruct (endpointUrl cfg); [|done]. by destruct hasBeacon.
  - unfold trackEvent. by send_fixed.
  - unfold updateField. rewrite Ht. by send_fixed.
  - destruct (inflight s !! i) as [req|]; [|done]. unfold afterFetch. simpl.
    destruct (settle cfg (req_isUpdate req) r) as [id|].
    + rewrite Ht. simpl. by rewrite andb_false_r.
    + by destruct (0 <? maxRetries s)%Z.
  - destruct (timers s !! i) as [[d req]|]; [|done]. unfold retryCallback.
    by send_fixed.
Qed.

(** X11: the first record identifier wins.  Once an identifier has
    been captured it is never replaced, whatever later responses
    carry, for the rest of the page session. *)
Theorem recordId_sticks (s : State) (evs : list Event) :
  Js.truthyO (recordId s) = true -> recordId (run cfg s evs) = recordId s.
Proof.
  revert s. induction evs as [|ev evs IH]; intros s Ht; [done|].
  rewrite run_cons, IH.
  - by apply recordId_kept.
  - by rewrite recordId_kept.
Qed.

Lemma clicks_step s ev :
  clicks (step cfg s ev) =
  (clicks s + match ev with
              | EClick _ => if trackClicks cfg then 1 else 0
              | _ => 0
              end)%Z.
Proof.
  destruct ev; simpl.
  - unfold trackPageView. destruct (trackPageViews cfg); simpl; [|lia].
    send_fixed. lia.
  - unfold updateTimeOnPage. destruct (Js.truthyO (recordId s)); simpl; [|lia].
    send_fixed. lia.
  - unfold trackClick. destruct (trackClicks cfg); simpl; [|lia].
    destruct (isCtaButton && Js.truthyO (recordId s)); simpl; [|done].
    send_fixed. simpl in *. lia.
  - unfold trackRegistration.
    destruct (negb (trackRegistrations cfg) || negb (Js.truthyO (recordId s)));
      simpl; [lia|]. send_fixed. lia.
  - unfold sendFinalUpdate. destruct (Js.truthyO (recordId s)); simpl; [|lia].
    destruct (endpointUrl cfg); [|lia]. destruct hasBeacon; simpl; lia.
  - unfold trackEvent. send_fixed. lia.
  - unfold updateField. destruct (Js.truthyO (recordId s)); [|lia]. send_fixed. lia.
  - destruct (inflight s !! i) as [req|]; [|lia]. unfold afterFetch. simpl.
    destruct (settle cfg (req_isUpdate req) r) as [id|].
    + destruct (Js.truthyO id && negb (Js.truthyO (recordId s))); simpl; lia.
    + destruct (0 <? maxRetries s)%Z; simpl; lia.
  - destruct (timers s !! i) as [[d req]|]; [|lia]. unfold retryCallback.
    send_fixed. simpl in *. lia.
Qed.

(** X12: every click is counted while click tracking is on, whether or
    not the record identifier is known and whether or not anything is
    sent; no other event changes the counter. *)
Theorem clicks_counted (s : State) (evs : list Event) :
  clicks (run cfg s evs) =
  (clicks s + if trackClicks cfg then Z.of_nat (countClicks evs) else 0)%Z.
Proof.
  revert s. induction evs as [|ev evs IH]; intros s.
  - unfold run, countClicks. simpl. destruct (trackClicks cfg); lia.
  - rewrite run_cons, IH, clicks_step.
    assert (Hc : countClicks (ev :: evs)
                 = (match ev with EClick _ => 1 | _ => 0 end + countClicks evs)%nat)
      by (unfold countClicks; by destruct ev).
    rewrite Hc. destruct ev; destruct (trackClicks cfg); lia.
Qed.

Lemma send_skipped s req :
  configured cfg = false \/ knownBackend cfg = false -> sendToBackend cfg s req = s.
Proof. unfold sendToBackend. intros [-> | ->]; simpl; [done|]. by destruct (configured cfg). Qed.

(** X13: an endpoint that is missing, empty or still holds a
    placeholder marker, or a backend name the tracker does not know,
    disables delivery silently: along every run nothing is sent,
    nothing is in flight, no retry is scheduled, the retry counter is
    untouched and no record identifier is ever captured. *)
Theorem unconfigured_sends_nothing (evs : list Event) :
  configured cfg = false \/ knownBackend cfg = false ->
  let s := run cfg (init cfg) evs in
  network s = [] /\ inflight s = [] /\ timers s = [] /\ scheduled s = []
  /\ recordId s = None /\ maxRetries s = initialMaxRetries cfg.
Proof.
  intros Hc.
  assert (Hstep : forall s ev,
            network s = [] /\ inflight s = [] /\ timers s = [] /\ scheduled s = []
            /\ recordId s = None /\ maxRetries s = initialMaxRetries cfg ->
            network (step cfg s ev) = [] /\ inflight (step cfg s ev) = []
            /\ timers (step cfg s ev) = [] /\ scheduled (step cfg s ev) = []
            /\ recordId (step cfg s ev) = None
            /\ maxRetries (step cfg s ev) = initialMaxRetries cfg).
  { intros s ev (Hn & Hi & Ht & Hs & Hr & Hm). destruct ev; simpl.
    - unfold trackPageView. destruct (trackPageViews cfg); simpl;
        rewrite ?send_skipped by done; done.
    - unfold updateTimeOnPage. rewrite Hr. done.
    - unfold trackClick. rewrite Hr, andb_false_r. by destruct (trackClicks cfg).
    - unfold trackRegistration. rewrite Hr, orb_true_r. done.
    - unfold sendFinalUpdate. rewrite Hr. done.
    - unfold trackEvent. rewrite send_skipped by done. done.
    - unfold updateField. rewrite Hr. done.
    - rewrite Hi, lookup_nil. done.
    - rewrite Ht, lookup_nil. done. }
  cbv zeta. generalize (init cfg) (conj (eq_refl : network (init cfg) = [])
    (conj (eq_refl : inflight (init cfg) = [])
    (conj (eq_refl : timers (init cfg) = [])
    (conj (eq_refl : scheduled (init cfg) = [])
    (conj (eq_refl : recordId (init cfg) = None)
          (eq_refl : maxRetries (init cfg) = initialMaxRetries cfg)))))).
  induction evs as [|ev evs IH]; intros s Hs; [exact Hs|].
  rewrite run_cons. apply IH. by apply Hstep.
Qed.

(** X14: the identifier captured is that of the first response that
    carries one, whichever request it answers: while no identifier is
    known, the response to a tracked event (a request that is not an
    update) sets it, and later updates are addressed to it. *)
Theorem event_response_sets_record_id (s : State) (eventType id : string) :
  configured cfg = true -> knownBackend cfg = true ->
  inflight s = [] -> Js.truthyO (recordId s) = false -> Js.truthy id = true ->
  let s' := run cfg s [ETrackEvent eventType; EFetchSettled 0 (HttpOk (Some id))] in
  recordId s' = Some id
  /\ network s' = (network s ++ [mkNetCall (EventData (recordId s) eventType)
                                    false None false])%list
  /\ forall field value,
       network (step cfg s' (EUpdateField field value))
       = (network s' ++ [mkNetCall (FieldData field value) true (Some id) false])%list.
Proof.
  intros Hc Hk Hi Hr Hid. cbv zeta. unfold run. simpl.
  unfold trackEvent, sendToBackend. rewrite Hc, Hk. simpl. rewrite Hi. simpl.
  unfold afterFetch, settle. simpl. rewrite andb_false_r. simpl.
  rewrite Hid, Hr. simpl.
  split; [done|]. split; [done|]. intros field value.
  unfold updateField, sendToBackend. simpl. rewrite Hid, Hc, Hk. simpl.
  unfold callOf. simpl. by rewrite Hid.
Qed.

(** *** Identity, engagement, referral info *)

(** X15: the visitor identifier is durable: a call of [getVisitorId]
    returns a non-empty identifier, and any later call on the storage
    it leaves returns the same identifier and leaves the storage as it
    is, whatever the random source and the clock give. *)
Theorem visitorId_durable (storage : gmap string string)
    (random now random' now' : string) :
  let first := getVisitorId storage random now in
  Js.truthy first.1 = true
  /\ getVisitorId first.2 random' now' = first.
Proof.
  assert (Hfresh : forall id, Js.truthy id = true ->
            getVisitorId (<["unilive_visitor_id" := id]> storage) random' now'
            = (id, <["unilive_visitor_id" := id]> storage)).
  { intros id Hid. unfold getVisitorId. rewrite lookup_insert_eq. simpl.
    by rewrite Hid. }
  intros first.
  destruct (Js.truthyO (storage !! "unilive_visitor_id")) eqn:E.
  - assert (Hf : first = (default "" (storage !! "unilive_visitor_id"), storage))
      by (subst first; unfold getVisitorId; by rewrite E).
    rewrite Hf. simpl.
    destruct (storage !! "unilive_visitor_id") as [v|] eqn:Ev; [|done].
    simpl in *. split; [done|]. unfold getVisitorId. rewrite Ev. simpl. by rewrite E.
  - assert (Hf : first = ("v_" ++ random ++ now,
                          <["unilive_visitor_id" := "v_" ++ random ++ now]> storage))
      by (subst first; unfold getVisitorId; by rewrite E).
    rewrite Hf. simpl. split; [done|]. by apply Hfresh.
Qed.

Lemma engagement_tracked ticks : engagementEvents true ticks = 0%nat.
Proof.
  induction ticks as [|[[t c] h] ticks IH]; simpl; [done|].
  unfold checkHighEngagement. by rewrite andb_false_r.
Qed.

(** X16: high engagement is reported at most once per page session:
    over any sequence of ticks of the engagement timer at most one
    [high_engagement] event is tracked, and none once the flag is
    set; the flag is set at the first tick with more than 120 seconds
    on the page or more than 10 clicks, even if the event could not
    be tracked then. *)
Theorem high_engagement_once (tracked : bool) (ticks : list (Z * Z * bool)) :
  (engagementEvents tracked ticks <= 1)%nat
  /\ (tracked = true -> engagementEvents tracked ticks = 0%nat)
  /\ (forall timeOnPage clicks hasTrackEvent,
        (120 < timeOnPage \/ 10 < clicks)%Z ->
        (checkHighEngagement tracked timeOnPage clicks hasTrackEvent).1 = true).
Proof.
  split; [|split].
  - revert tracked. induction ticks as [|[[t c] h] ticks IH]; intros tracked; simpl; [lia|].
    unfold checkHighEngagement.
    destruct (((120 <? t)%Z || (10 <? c)%Z) && negb tracked).
    + rewrite engagement_tracked. destruct h; lia.
    + apply IH.
  - intros ->. apply engagement_tracked.
  - intros t c h Hover. unfold checkHighEngagement.
    assert (Hb : ((120 <? t)%Z || (10 <? c)%Z) = true).
    { apply orb_true_iff. destruct Hover; [left | right]; by apply Z.ltb_lt. }
    rewrite Hb. by destruct tracked.
Qed.

Lemma referralDocument_lookups (data : Referral.ReferralState) :
  Referral.referralDocument data !! "referrer"
  = Some (Js.jsonOf (Referral.referrer data))
  /\ Referral.referralDocument data !! "inviteCode"
    = Some (Js.jsonOf (Referral.inviteCode data))
  /\ Referral.referralDocument data !! "code" = None.
Proof.
  unfold Referral.referralDocument.
  destruct (Referral.landingPage data); repeat split; vm_compute; reflexivity.
Qed.

(** X17: the page-view record takes its referral source from the
    document the referral tracker persisted, but never its referral
    code: the document holds the invite code under [inviteCode], the
    tracker reads [code], so the code reported is the [code] parameter
    of the URL or null, whatever invite code was saved. *)
Theorem referral_code_not_read (st : Referral.Storage) (data : Referral.ReferralState)
    (search : list (string * string)) :
  Referral.lsAvailable st = true ->
  let saved := Referral.saveReferralData st data in
  storedReferral saved !! "inviteCode" = Some (Js.jsonOf (Referral.inviteCode data))
  /\ exists info,
       getReferralInfo saved search = Some info
       /\ referralCode info = Js.jsonOf (urlGet "code" search)
       /\ referralSource info
          = (if Js.truthyO (Referral.referrer data)
             then Js.jsonOf (Referral.referrer data)
             else Js.jsonOf (urlGet "ref" search))
       /\ referralType info
          = (if Js.truthyO (Referral.referrer data) then "referral" else "organic").
Proof.
  intros Hls saved. apply andb_true_iff in Hls as [Hrd Hwr].
  destruct (referralDocument_lookups data) as (Hr & Hi & Hc).
  assert (Hst : storedReferral saved = Referral.referralDocument data).
  { unfold storedReferral, saved, Referral.saveReferralData. simpl. by rewrite Hwr. }
  split; [by rewrite Hst|].
  unfold getReferralInfo.
  assert (Hrd' : Referral.lsReadable saved = true) by done.
  rewrite Hrd', Hst. eexists. split; [reflexivity|]. simpl.
  unfold storedOr. rewrite Hr, Hc.
  assert (Ht : Js.truthyJ (Js.jsonOf (Referral.referrer data))
               = Js.truthyO (Referral.referrer data))
    by (by destruct (Referral.referrer data)).
  rewrite Ht. repeat split; by destruct (Js.truthyO (Referral.referrer data)).
Qed.

End TrackerMore.

(* ===================================================================== *)
(** ** Further properties of the webhook script                           *)
(* ===================================================================== *)

Section WebhooksMore.

Import Webhooks.

Lemma backoff_whole (exponent : Z) :
  (0 <= exponent)%Z -> backoff exponent = Millis (1000 * 2 ^ exponent).
Proof.
  intros H. unfold backoff.
  assert (E : (0 <=? exponent)%Z = true) by (apply Z.leb_le; lia).
  rewrite E. f_equal. lia.
Qed.

Lemma sendWebhookFrom_delays cfg endpoint payload attempts (retries : Z) :
  deliverable cfg endpoint = true ->
  headersBuilt cfg payload = true ->
  (retries <= wh_retries cfg)%Z ->
  sendWebhookFrom cfg endpoint payload attempts retries
  = map (fun k => Millis (1000 * 2 ^ Z.of_nat k))
        (seq (Z.to_nat (wh_retries cfg - retries))
             (Nat.min (leadingFailures attempts) (Z.to_nat retries))).
Proof.
  intros Hd Hb. revert retries.
  induction attempts as [|a attempts IH]; intros retries Hle.
  - simpl. by rewrite Hd, Hb.
  - assert (Hfail : forall tail,
              (if (0 <? retries)%Z
               then backoff (wh_retries cfg - retries)
                    :: sendWebhookFrom cfg endpoint payload attempts (retries - 1)
               else tail) =
              map (fun k => Millis (1000 * 2 ^ Z.of_nat k))
                  (seq (Z.to_nat (wh_retries cfg - retries))
                       (Nat.min (S (leadingFailures attempts)) (Z.to_nat retries)))
              \/ (retries <= 0)%Z).
    { intros tail. destruct (0 <? retries)%Z eqn:E; [left | right].
      - apply Z.ltb_lt in E. rewrite IH by lia.
        replace (Z.to_nat retries) with (S (Z.to_nat (retries - 1))) by lia.
        rewrite <- Nat.succ_min_distr. simpl. f_equal.
        + rewrite backoff_whole by lia. rewrite Z2Nat.id by lia. done.
        + f_equal. f_equal. lia.
      - apply Z.ltb_ge in E. lia. }
    simpl. rewrite Hd, Hb. simpl.
    destruct a; [done | |];
      (destruct (Hfail []) as [-> | Hz]; [done|];
       assert (E : (0 <? retries)%Z = false) by (apply Z.ltb_ge; lia);
       rewrite E; replace (Z.to_nat retries) with 0%nat by lia;
       by rewrite Nat.min_0_r).
Qed.

(** X18: a webhook has a retry budget of its own and an exponential
    backoff.  When the webhook can be delivered (webhooks enabled, an
    endpoint that is neither empty nor a placeholder) and its headers
    can be built (a payload that is not null, and with a secret a
    payload that serializes to a text [btoa] accepts), a call with a
    budget [retries] of at most [WEBHOOK_CONFIG.retries] waits
    [1000 * 2 ^ k] milliseconds before its retries, [k] counting up
    from [WEBHOOK_CONFIG.retries - retries]: one second, two seconds,
    four seconds and so on for the default budget.  There are as many
    retries as runs fail before the first delivery, at most
    [retries], and one more run of the request than retries.  When
    the webhook cannot be delivered or its headers cannot be built,
    nothing is sent and nothing is scheduled. *)
Theorem webhook_backoff (cfg : WebhookConfig) (endpoint : string)
    (payload : Payload) (retries : option Z) (attempts : list Attempt) :
  let budget := default (wh_retries cfg) retries in
  let n := Nat.min (leadingFailures attempts) (Z.to_nat budget) in
  (deliverable cfg endpoint = true -> headersBuilt cfg payload = true ->
   (budget <= wh_retries cfg <= 1000)%Z ->
     sendWebhook cfg endpoint payload retries attempts
     = map (fun k => Millis (1000 * 2 ^ Z.of_nat k))
           (seq (Z.to_nat (wh_retries cfg - budget)) n)
     /\ webhookAttempts cfg endpoint payload retries attempts = S n)
  /\ (deliverable cfg endpoint = false \/ headersBuilt cfg payload = false ->
      sendWebhook cfg endpoint payload retries attempts = []
      /\ webhookAttempts cfg endpoint payload retries attempts = 0%nat).
Proof.
  intros budget n. split.
  - intros Hd Hb Hle.
    assert (Hs : sendWebhook cfg endpoint payload retries attempts
                 = map (fun k => Millis (1000 * 2 ^ Z.of_nat k))
                       (seq (Z.to_nat (wh_retries cfg - budget)) n)).
    { unfold sendWebhook. by rewrite sendWebhookFrom_delays by (done || lia). }
    split; [done|]. unfold webhookAttempts. rewrite Hd, Hb, Hs. simpl.
    by rewrite length_map, length_seq.
  - intros Hno.
    assert (Hs : sendWebhook cfg endpoint payload retries attempts = []).
    { unfold sendWebhook.
      destruct attempts; simpl; destruct Hno as [-> | ->]; simpl; try done;
        by destruct (deliverable cfg endpoint). }
    split; [done|]. unfold webhookAttempts.
    destruct Hno as [-> | ->]; [done|]. by rewrite andb_false_r.
Qed.

(** *** Milestones that are recorded without a webhook *)

Lemma keyHeld_check key s0 s type value metadata now :
  keyHeld key s0 s -> keyHeld key s0 (checkMilestone s type value metadata now).1.
Proof.
  intros ([t Ht] & new & Hd & Hnew).
  destruct (checkMilestone_cases s type value metadata now)
    as [[-> _] | [(Hk & _ & _ & ->) | (Hk & _ & _ & ->)]]; simpl.
  - split; eauto.
  - assert (Hne : milestoneKey type value <> key) by congruence.
    split; simpl.
    + exists t. by rewrite lookup_insert_ne.
    + exists (new ++ [mkWebhook type value now metadata])%list.
      split; [by rewrite Hd, app_assoc|].
      intros w Hw. apply elem_of_app in Hw as [Hw | Hw]; [by apply Hnew|].
      by apply list_elem_of_singleton in Hw as ->.
  - assert (Hne : milestoneKey type value <> key) by congruence.
    split; simpl; [|eauto]. exists t. by rewrite lookup_insert_ne.
Qed.

Lemma keyHeld_forEach key s0 type current stats now thresholds s :
  keyHeld key s0 s ->
  keyHeld key s0 (forEachThreshold s type current stats now thresholds).1.
Proof.
  revert s. induction thresholds as [|m rest IH]; intros s Hs; simpl; [done|].
  destruct (m <=? current)%Z; [|by apply IH].
  pose proof (keyHeld_check key s0 s type m stats now Hs) as Hc.
  destruct (checkMilestone s type m stats now) as [s' [|]]; simpl in *; [|done].
  by apply IH.
Qed.

Lemma keyHeld_step key s0 s ev :
  (match ev with EReload => false | _ => true end) = true ->
  keyHeld key s0 s -> keyHeld key s0 (step s ev).
Proof.
  intros Hev Hs. destruct ev as [type value metadata now|stats now|w|]; simpl.
  - by apply keyHeld_check.
  - unfold monitorTick. destruct stats as [stats|]; [|done].
    assert (H1 : keyHeld key s0
              (match statIfTruthy stats "totalVisitors" with
               | Some v => forEachThreshold s "visitors" v stats now visitorsThresholds
               | None => (s, true)
               end).1).
    { destruct (statIfTruthy stats "totalVisitors"); [|done].
      by apply keyHeld_forEach. }
    destruct (match statIfTruthy stats "totalVisitors" with
              | Some v => forEachThreshold s "visitors" v stats now visitorsThresholds
              | None => (s, true)
              end) as [s1 [|]]; simpl in *; [|done].
    destruct (statIfTruthy stats "registrations") as [v|]; [|done].
    exact (keyHeld_forEach key s0 "registrations" v stats now
             registrationsThresholds s1 H1).
  - exact Hs.
  - discriminate Hev.
Qed.

Lemma keyHeld_run key s0 s evs :
  noReload evs = true -> keyHeld key s0 s -> keyHeld key s0 (run s evs).
Proof.
  revert s. induction evs as [|ev evs IH]; intros s Hno Hs; [done|].
  simpl in Hno. apply andb_true_iff in Hno as [Hev Hno].
  simpl. apply IH; [done|]. by apply keyHeld_step.
Qed.

(** X19: a milestone reached while the milestone map cannot be
    persisted is lost.  The check records the key in memory, the write
    throws, and no webhook is handed over; from then on, until the
    page is loaded again, no check and no tick hands over a webhook of
    that key, even after the storage accepts writes again. *)
Theorem milestone_lost_when_unwritable (s : State) (type : string) (value : Z)
    (metadata : gmap string Z) (now : Z) (evs : list Event) :
  storageWritable s = false ->
  achievedMilestones s !! milestoneKey type value = None ->
  isThreshold type value = true ->
  noReload evs = true ->
  let s1 := (checkMilestone s type value metadata now).1 in
  (checkMilestone s type value metadata now).2 = false
  /\ dispatched s1 = dispatched s
  /\ persisted s1 = persisted s
  /\ achievedMilestones s1 !! milestoneKey type value = Some now
  /\ exists new,
       dispatched (run s1 evs) = (dispatched s ++ new)%list
       /\ forall w, w ∈ new -> webhookKey w <> milestoneKey type value.
Proof.
  intros Hw Hk Ht Hno s1.
  assert (Hc : checkMilestone s type value metadata now =
               (mkState (<[milestoneKey type value := now]> (achievedMilestones s))
                        (persisted s) false (dispatched s), false)).
  { unfold checkMilestone. by rewrite Hk, Ht, Hw. }
  subst s1. rewrite Hc. simpl. split; [done|]. split; [done|]. split; [done|].
  split; [by rewrite lookup_insert_eq|].
  set (s1 := mkState _ _ _ _).
  destruct (keyHeld_run (milestoneKey type value) s1 s1 evs Hno) as (_ & new & Hd & Hnew).
  - split; [simpl; rewrite lookup_insert_eq; eauto|].
    exists []. rewrite app_nil_r. split; [done|].
    intros w Hin. by apply elem_of_nil in Hin.
  - exists new. split; [exact Hd | exact Hnew].
Qed.

(** *** Ticks that change nothing *)

Lemma forEach_recorded type current stats now thresholds s :
  (forall m, m ∈ thresholds -> (m <= current)%Z ->
     is_Some (achievedMilestones s !! milestoneKey type m)) ->
  forEachThreshold s type current stats now thresholds = (s, true).
Proof.
  induction thresholds as [|m rest IH]; intros H; simpl; [done|].
  assert (Hrest : forEachThreshold s type current stats now rest = (s, true)).
  { apply IH. intros m' Hm'. apply H. by right. }
  destruct (m <=? current)%Z eqn:E; [|done].
  apply Z.leb_le in E. destruct (H m ltac:(by left) E) as [t Ht].
  unfold checkMilestone. by rewrite Ht.
Qed.

Lemma due_elem type current thresholds m :
  m ∈ thresholds -> (m <= current)%Z -> (type, m) ∈ due type (Some current) thresholds.
Proof.
  intros Hm Hle. unfold due. apply list_elem_of_fmap. exists m. split; [done|].
  apply list_elem_of_In, List.filter_In. split; [by apply list_elem_of_In|].
  by apply Z.leb_le.
Qed.

Lemma category_recorded type field stats now thresholds s :
  (forall m, m ∈ due type (stats !! field) thresholds ->
     is_Some (achievedMilestones s !! keyOf m)) ->
  match statIfTruthy stats field with
  | Some v => forEachThreshold s type v stats now thresholds
  | None => (s, true)
  end = (s, true).
Proof.
  intros H. unfold statIfTruthy. destruct (stats !! field) as [v|]; [|done].
  destruct (v =? 0)%Z; [done|]. apply forEach_recorded.
  intros m Hm Hle. apply (H (type, m)). by apply due_elem.
Qed.

(** A tick does nothing when every milestone due in the two categories
    it evaluates is already recorded. *)
Lemma tick_recorded (s : State) (stats : gmap string Z) (now : Z) :
  (forall m, m ∈ dueOnTick stats -> is_Some (achievedMilestones s !! keyOf m)) ->
  monitorTick s (Some stats) now = s.
Proof.
  intros H. unfold monitorTick.
  rewrite category_recorded.
  - pose proof (category_recorded "registrations" "registrations" stats now
                  registrationsThresholds s) as Hreg.
    destruct (statIfTruthy stats "registrations") as [v|]; [|done].
    rewrite Hreg; [done|].
    intros m Hm. apply H. unfold dueOnTick. apply elem_of_app. by right.
  - intros m Hm. apply H. unfold dueOnTick. apply elem_of_app. by left.
Qed.

(** X20: polling is idempotent: while the milestone map can be
    persisted, a second tick with the same stats leaves the state of
    the first as it is, whatever the clock gives. *)
Theorem tick_twice (s : State) (stats : gmap string Z) (now now' : Z) :
  storageWritable s = true ->
  monitorTick (monitorTick s (Some stats) now) (Some stats) now'
  = monitorTick s (Some stats) now.
Proof.
  intros Hw. apply tick_recorded. intros m Hm.
  unfold monitorTick.
  destruct (category_writable "visitors" "totalVisitors" stats now visitorsThresholds s
              Hw visitors_thresholds visitors_keys_NoDup eq_refl)
    as (s1 & -> & Hw1 & _ & _ & Hdue1 & _).
  destruct (category_writable "registrations" "registrations" stats now
              registrationsThresholds s1
              Hw1 registrations_thresholds registrations_keys_NoDup eq_refl)
    as (s2 & E2 & _ & _ & Hsub2 & Hdue2 & _).
  assert (Hs2 : match statIfTruthy stats "registrations" with
                | Some v => (forEachThreshold s1 "registrations" v stats now
                               registrationsThresholds).1
                | None => s1
                end = s2).
  { destruct (statIfTruthy stats "registrations"); [by rewrite E2|congruence]. }
  rewrite Hs2. unfold dueOnTick in Hm. apply elem_of_app in Hm as [Hm | Hm].
  - destruct (Hdue1 m Hm) as [t Ht]. exists t. by eapply lookup_weaken.
  - by apply Hdue2.
Qed.

(** X21: fed by the tracker's own [getStats], the milestone monitor
    never fires: the stats report one visitor and no registration,
    below every configured threshold, so each tick leaves the state as
    it is. *)
Theorem monitor_silent_on_tracker_stats (ts : Tracker.State) (s : State) (now : Z) :
  monitorTick s (Some (Tracker.getStats ts)) now = s.
Proof.
  apply tick_recorded. intros m Hm. exfalso.
  assert (Hdue : dueOnTick (Tracker.getStats ts) = []) by (vm_compute; reflexivity).
  rewrite Hdue in Hm. by apply elem_of_nil in Hm.
Qed.

End WebhooksMore.

(* ===================================================================== *)
(** ** The further properties on concrete runs                            *)
(* ===================================================================== *)

Section TrackerRuns.

Import Tracker.

(** Two mapped fields, one the mapping does not know and one whose
    name [Object.prototype] defines. *)
Lemma mapFields_renames_witness :
  let entries := [("timeOnPage", 30%Z); ("clicksCount", 2%Z); ("experiment", 7%Z);
                  ("constructor", 9%Z)] in
  mapFields nativeText (Some supabaseMapping) entries !! "time_on_page" = Some 30%Z
  /\ mapFields nativeText (Some supabaseMapping) entries !! "experiment" = Some 7%Z
  /\ mapFields nativeText (Some supabaseMapping) entries
       !! "function Object() { [native code] }" = Some 9%Z.
Proof.
  intros entries.
  assert (Hnd : NoDup entries.*1)
    by (apply (bool_decide_unpack _); vm_compute; exact I).
  assert (Hinj : forall k1 k2, k1 ∈ entries.*1 -> k2 ∈ entries.*1 ->
            renameField nativeText supabaseMapping k1
            = renameField nativeText supabaseMapping k2 -> k1 = k2).
  { intros k1 k2 H1 H2. simpl in H1, H2.
    rewrite !elem_of_cons, elem_of_nil in H1, H2.
    destruct H1 as [-> | [-> | [-> | [-> | []]]]];
      destruct H2 as [-> | [-> | [-> | [-> | []]]]];
      vm_compute; congruence. }
  assert (Hproto : forall k, k ∈ entries.*1 ->
            renameField nativeText supabaseMapping k <> "__proto__").
  { intros k H1. simpl in H1. rewrite !elem_of_cons, elem_of_nil in H1.
    destruct H1 as [-> | [-> | [-> | [-> | []]]]]; vm_compute; congruence. }
  destruct (mapFields_renames nativeText supabaseMapping entries Hnd Hinj Hproto)
    as [H _].
  assert (H1 : ("timeOnPage", 30%Z) ∈ entries)
    by (subst entries; rewrite !elem_of_cons; auto).
  assert (H2 : ("experiment", 7%Z) ∈ entries)
    by (subst entries; rewrite !elem_of_cons; auto).
  assert (H3 : ("constructor", 9%Z) ∈ entries)
    by (subst entries; rewrite !elem_of_cons; auto 6).
  apply H in H1, H2, H3.
  replace (renameField nativeText supabaseMapping "timeOnPage")
    with "time_on_page" in H1 by (vm_compute; reflexivity).
  replace (renameField nativeText supabaseMapping "experiment")
    with "experiment" in H2 by (vm_compute; reflexivity).
  replace (renameField nativeText supabaseMapping "constructor")
    with "function Object() { [native code] }" in H3 by (vm_compute; reflexivity).
  split; [exact H1 | split; [exact H2 | exact H3]].
Defined.

(** The page view gets the identifier 42; a later response carrying 43
    does not replace it. *)
Lemma recordId_sticks_witness :
  let s := run defaultConfig (init defaultConfig)
             [EPageView; EFetchSettled 0 (HttpOk (Some "42"))] in
  recordId (run defaultConfig s [ETrackEvent "share"; EFetchSettled 0 (HttpOk (Some "43"))])
  = Some "42".
Proof.
  intros s.
  rewrite (recordId_sticks defaultConfig s
             [ETrackEvent "share"; EFetchSettled 0 (HttpOk (Some "43"))]).
  - vm_compute. reflexivity.
  - vm_compute. reflexivity.
Defined.

(** The configuration file as shipped: nothing leaves the page. *)
Lemma unconfigured_sends_nothing_witness :
  network (run shippedConfig (init shippedConfig)
             [EPageView; EClick true; ETrackEvent "share"; EUnload 12 true]) = [].
Proof.
  destruct (unconfigured_sends_nothing shippedConfig
              [EPageView; EClick true; ETrackEvent "share"; EUnload 12 true]
              (or_introl eq_refl)) as [H _].
  exact H.
Defined.

(** A tracked event answered with the identifier e1 before any page
    view got one. *)
Lemma event_response_sets_record_id_witness :
  recordId (run defaultConfig (init defaultConfig)
              [ETrackEvent "share"; EFetchSettled 0 (HttpOk (Some "e1"))])
  = Some "e1".
Proof.
  destruct (event_response_sets_record_id defaultConfig (init defaultConfig)
              "share" "e1" eq_refl eq_refl eq_refl eq_refl eq_refl) as [H _].
  exact H.
Defined.

(** The referral tracker saved the referrer bob with the invite code
    zyDK65; the URL has no [code]. *)
Lemma referral_code_not_read_witness :
  let data := Referral.mkReferralState (Some "bob") (Some "zyDK65") "url_param" "t1"
                None Referral.nullUtm in
  let saved := Referral.saveReferralData (Referral.emptyStorage true) data in
  storedReferral saved !! "inviteCode" = Some (Js.JString "zyDK65")
  /\ (referralCode <$> getReferralInfo saved []) = Some Js.JNull
  /\ (referralSource <$> getReferralInfo saved []) = Some (Js.JString "bob").
Proof.
  intros data saved.
  destruct (referral_code_not_read (Referral.emptyStorage true) data [] eq_refl)
    as (Hi & info & Hinfo & Hc & Hs & _).
  fold saved in Hi, Hinfo. rewrite Hinfo. simpl. rewrite Hc, Hs.
  split; [exact Hi|]. split; reflexivity.
Defined.

End TrackerRuns.

Section WebhookRuns.

Import Webhooks.

(** Two failures, then a delivery: two retries, after one and two
    seconds.  Five failures: the budget of three retries is used up.
    A call with a budget of one: its only retry comes after four
    seconds. *)
Lemma webhook_backoff_witness :
  let cfg := mkWebhookConfig true (Js.codeUnits "s3cret") 3 5000 in
  let payload := mkPayload false (Some (Js.codeUnits "{}")) in
  sendWebhook cfg "https://hooks.example/m" payload None [Failed; Rejected; Delivered]
  = [Millis 1000; Millis 2000]
  /\ sendWebhook cfg "https://hooks.example/m" payload None
       [Failed; Failed; Failed; Failed; Failed]
  = [Millis 1000; Millis 2000; Millis 4000]
  /\ sendWebhook cfg "https://hooks.example/m" payload (Some 1%Z) [Failed; Failed]
  = [Millis 4000].
Proof.
  intros cfg payload. split; [|split].
  - destruct (webhook_backoff cfg "https://hooks.example/m" payload None
                [Failed; Rejected; Delivered]) as [H _].
    destruct (H ltac:(vm_compute; reflexivity) ltac:(vm_compute; reflexivity)
                ltac:(vm_compute; split; discriminate)) as [-> _].
    vm_compute. reflexivity.
  - destruct (webhook_backoff cfg "https://hooks.example/m" payload None
                [Failed; Failed; Failed; Failed; Failed]) as [H _].
    destruct (H ltac:(vm_compute; reflexivity) ltac:(vm_compute; reflexivity)
                ltac:(vm_compute; split; discriminate)) as [-> _].
    vm_compute. reflexivity.
  - destruct (webhook_backoff cfg "https://hooks.example/m" payload (Some 1%Z)
                [Failed; Failed]) as [H _].
    destruct (H ltac:(vm_compute; reflexivity) ltac:(vm_compute; reflexivity)
                ltac:(vm_compute; split; discriminate)) as [-> _].
    vm_compute. reflexivity.
Defined.

(** Ten visitors are counted while the storage refuses writes; then
    the storage accepts writes and the monitor ticks. *)
Lemma milestone_lost_when_unwritable_witness :
  let s1 := (checkMilestone (pageLoad ∅ false) "visitors" 10 ∅ 1).1 in
  exists new,
    dispatched (run s1 [EStorage true; ETick (Some (visitorStats 10)) 2])
    = (dispatched (pageLoad ∅ false) ++ new)%list
    /\ forall w, w ∈ new -> webhookKey w <> milestoneKey "visitors" 10.
Proof.
  intros s1.
  destruct (milestone_lost_when_unwritable (pageLoad ∅ false) "visitors" 10 ∅ 1
              [EStorage true; ETick (Some (visitorStats 10)) 2]
              eq_refl (lookup_empty (milestoneKey "visitors" 10)) eq_refl eq_refl)
    as (_ & _ & _ & _ & H).
  exact H.
Defined.

(** Two ticks with the same stats on a fresh page. *)
Lemma tick_twice_witness :
  monitorTick (monitorTick (pageLoad ∅ true) (Some sampleStats) 1) (Some sampleStats) 2
  = monitorTick (pageLoad ∅ true) (Some sampleStats) 1.
Proof. exact (tick_twice (pageLoad ∅ true) sampleStats 1 2 eq_refl). Defined.

End WebhookRuns.
